(** * Online service management: record stores and query layer

    A shallow embedding of [src/index.ts], the Azle canister that keeps three
    stable maps (services, reviews, users) and exposes create / read / update /
    delete calls, a handful of filters and the average rating of a service.

    [index.ts] holds two revisions of the canister.  The first half validates
    payloads and means to compare the caller with the owner field before a
    mutation; its calls are modelled at top level.  The second half has no
    validation and no caller: its calls that add, update, delete or read one
    record are in [Module Unguarded], and the calls only it has
    ([getServiceReviews], [getServiceAverageRating], [updateUser],
    [searchUsersByUsername], [searchUsersByEmail]) are at top level, next to
    the listings and filters, which the two halves share word for word.

    Modelling choices, all read off the source:
    - a [StableBTreeMap<string, T>] is a [gmap string T]; [get] returns the
      [Opt] object [{Some: v}] or [{None: null}], an [option] here.  The
      second half takes that object apart with [match].  The first half
      tests it with [!] and reads the fields of the record off it: the test
      never fires, since an object is truthy, and the fields are
      [undefined], since the object has the key [Some] or [None] and no
      other; [values()] is the list of stored values, in the store's own
      order;
    - a JS string is a [string], one [ascii] per code unit, so the code
      units are those below 256; [toLowerCase] is the built-in on them (the
      letters A-Z, and the Latin-1 capitals 192-214 and 216-222, move up by
      32); [<=] and [>=] on strings follow the relational comparison of
      ECMAScript (prefix test, then the first differing code unit);
    - a JS [number] is a binary64 [float], with the kernel's IEEE 754
      operations;
    - [uuidv4()] and [ic.time()] are ambient values of one call, gathered in
      [Env];
    - every update call is a function from the stores to a result and the
      new stores; every query is a function from the stores to a result. *)

From Stdlib Require Import Ascii String NArith ZArith List PrimFloat Uint63.
From Stdlib Require Import SpecFloat FloatOps FloatAxioms.
From stdpp Require Import gmap strings list fin_maps.

Local Open Scope string_scope.

(** ** Strings as the source uses them *)

(** [!s] for a string: only the empty string is falsy. *)
Definition truthy (s : string) : bool :=
  match s with
  | EmptyString => false
  | String _ _ => true
  end.

(** The code units that [toLowerCase] moves: A-Z and the capitals of
    Latin-1, which are 192-214 and 216-222 (215 is the multiplication
    sign). *)
Definition isUpper (c : ascii) : bool :=
  let n := N_of_ascii c in
  (((65 <=? n) && (n <=? 90))
   || ((192 <=? n) && (n <=? 214))
   || ((216 <=? n) && (n <=? 222)))%N.

Definition lowerUnit (c : ascii) : ascii :=
  if isUpper c then ascii_of_N (N_of_ascii c + 32) else c.

(** [String.prototype.toLowerCase]. *)
Fixpoint toLowerCase (s : string) : string :=
  match s with
  | EmptyString => EmptyString
  | String c s' => String (lowerUnit c) (toLowerCase s')
  end.

(** [x < y] on strings: false when [y] is a prefix of [x], true when [x] is a
    proper prefix of [y], and otherwise decided by the code units at the
    first index where the two differ. *)
Fixpoint string_lt (x y : string) : bool :=
  match x, y with
  | _, EmptyString => false
  | EmptyString, String _ _ => true
  | String a x', String b y' =>
      if Ascii.eqb a b then string_lt x' y'
      else (N_of_ascii a <? N_of_ascii b)%N
  end.

(** [x <= y] is [!(y < x)] and [x >= y] is [!(x < y)]. *)
Definition string_le (x y : string) : bool := negb (string_lt y x).
Definition string_ge (x y : string) : bool := negb (string_lt x y).

(** [s.startsWith(t)] and [s.includes(t)]. *)
Fixpoint startsWith (s t : string) : bool :=
  match t, s with
  | EmptyString, _ => true
  | String _ _, EmptyString => false
  | String b t', String a s' => Ascii.eqb a b && startsWith s' t'
  end.

Fixpoint includes (s t : string) : bool :=
  startsWith s t ||
  match s with
  | EmptyString => false
  | String _ s' => includes s' t
  end.

(** ** Objects as the first half reads them *)

(** [!o] tests that [o] is falsy.  What [get] returns is an object, for a
    missing key too, and every object is truthy. *)
Definition truthyObject {A} (o : option A) : bool := true.

(** What reading a property of an object gives: nothing, or a string. *)
Inductive JsProperty : Type :=
  | undefined
  | JsString (s : string).

(** [o.name] for the object that [get] returns and a [name] other than
    [Some] and [None]: the object has no such property. *)
Definition optProperty {A} (o : option A) (name : string) : JsProperty :=
  undefined.

(** [x !== s] for a string [s]: [undefined] is no string. *)
Definition strictNotEqual (x : JsProperty) (s : string) : bool :=
  match x with
  | undefined => true
  | JsString y => negb (String.eqb y s)
  end.

(** The code that follows a test which passes on no input. *)
Definition unreachable {A : Type} (H : true = false) : A :=
  match H in (_ = b) return (if b then unit else A) with
  | eq_refl => tt
  end.

(** ** Data model *)

Definition nat64 := N.

Module ServiceRecord.
Record t := mk {
  id : string;
  name : string;
  category : string;
  provider : string;
  date : string;
  startTime : string;
  endTime : string;
  location : string;
  description : string;
  createdAt : nat64;
  updatedAt : option nat64
}.
End ServiceRecord.

Module ServicePayload.
Record t := mk {
  name : string;
  category : string;
  provider : string;
  date : string;
  startTime : string;
  endTime : string;
  location : string;
  description : string
}.
End ServicePayload.

Module ReviewRecord.
Record t := mk {
  id : string;
  serviceId : string;
  userId : string;
  rating : float;
  comment : string;
  createdAt : nat64
}.
End ReviewRecord.

Module ReviewPayload.
Record t := mk {
  serviceId : string;
  userId : string;
  rating : float;
  comment : string
}.
End ReviewPayload.

Module User.
Record t := mk {
  id : string;
  username : string;
  email : string;
  createdAt : nat64;
  updatedAt : option nat64
}.
End User.

Module UserPayload.
Record t := mk {
  username : string;
  email : string
}.
End UserPayload.

(** The caller of an update call; the source only ever reads its text. *)
Record Principal := { toString : string }.

(** What one call reads from its surroundings. *)
Record Env := { uuidv4 : string; time : nat64 }.

(** The three stable maps. *)
Record Stores := {
  serviceStorage : gmap string ServiceRecord.t;
  reviewStorage : gmap string ReviewRecord.t;
  userStorage : gmap string User.t
}.

(** [map.values()]. *)
Definition values {A} (m : gmap string A) : list A := (map_to_list m).*2.

Inductive Result (A E : Type) : Type :=
  | Ok (a : A)
  | Err (e : E).
Arguments Ok {A E} a.
Arguments Err {A E} e.

(** The messages of the failure branch, named after the error kinds. *)
Definition InvalidInput_service : string := "Missing or invalid input data".
Definition InvalidInput_review : string := "Invalid review data".
Definition InvalidInput_user : string := "Missing username or email".
Definition ServiceMissing : string := "Service does not exist".
Definition NoReviews : string := "No reviews found for the service".
Definition NotFound_service (id : string) : string :=
  "Service with id=" +:+ id +:+ " not found".
Definition NotFound_review (id : string) : string :=
  "Review with id=" +:+ id +:+ " not found".
Definition NotFound_user (id : string) : string :=
  "User with id=" +:+ id +:+ " not found".
Definition Unauthorized_update_service : string :=
  "You are not authorized to update this service".
Definition Unauthorized_delete_service : string :=
  "You are not authorized to delete this service".
Definition Unauthorized_delete_review : string :=
  "You are not authorized to delete this review".
Definition Unauthorized_delete_user : string :=
  "You are not authorized to delete this user".

(** ** Writing one store back *)

Definition withServices (st : Stores) (m : gmap string ServiceRecord.t) : Stores :=
  {| serviceStorage := m;
     reviewStorage := reviewStorage st;
     userStorage := userStorage st |}.

Definition withReviews (st : Stores) (m : gmap string ReviewRecord.t) : Stores :=
  {| serviceStorage := serviceStorage st;
     reviewStorage := m;
     userStorage := userStorage st |}.

Definition withUsers (st : Stores) (m : gmap string User.t) : Stores :=
  {| serviceStorage := serviceStorage st;
     reviewStorage := reviewStorage st;
     userStorage := m |}.

(** ** Object spreads of the source, field by field *)

(** [{ id, createdAt, updatedAt: Opt.None, ...payload }] *)
Definition newService (i : string) (now : nat64) (p : ServicePayload.t)
  : ServiceRecord.t :=
  {| ServiceRecord.id := i;
     ServiceRecord.name := ServicePayload.name p;
     ServiceRecord.category := ServicePayload.category p;
     ServiceRecord.provider := ServicePayload.provider p;
     ServiceRecord.date := ServicePayload.date p;
     ServiceRecord.startTime := ServicePayload.startTime p;
     ServiceRecord.endTime := ServicePayload.endTime p;
     ServiceRecord.location := ServicePayload.location p;
     ServiceRecord.description := ServicePayload.description p;
     ServiceRecord.createdAt := now;
     ServiceRecord.updatedAt := None |}.

(** [{ ...existingRecord, ...payload, updatedAt: Opt.Some(now) }] *)
Definition mergeService (r : ServiceRecord.t) (p : ServicePayload.t) (now : nat64)
  : ServiceRecord.t :=
  {| ServiceRecord.id := ServiceRecord.id r;
     ServiceRecord.name := ServicePayload.name p;
     ServiceRecord.category := ServicePayload.category p;
     ServiceRecord.provider := ServicePayload.provider p;
     ServiceRecord.date := ServicePayload.date p;
     ServiceRecord.startTime := ServicePayload.startTime p;
     ServiceRecord.endTime := ServicePayload.endTime p;
     ServiceRecord.location := ServicePayload.location p;
     ServiceRecord.description := ServicePayload.description p;
     ServiceRecord.createdAt := ServiceRecord.createdAt r;
     ServiceRecord.updatedAt := Some now |}.

(** [{ ...existingRecord, location, updatedAt: Opt.Some(now) }] *)
Definition setLocation (r : ServiceRecord.t) (location : string) (now : nat64)
  : ServiceRecord.t :=
  {| ServiceRecord.id := ServiceRecord.id r;
     ServiceRecord.name := ServiceRecord.name r;
     ServiceRecord.category := ServiceRecord.category r;
     ServiceRecord.provider := ServiceRecord.provider r;
     ServiceRecord.date := ServiceRecord.date r;
     ServiceRecord.startTime := ServiceRecord.startTime r;
     ServiceRecord.endTime := ServiceRecord.endTime r;
     ServiceRecord.location := location;
     ServiceRecord.description := ServiceRecord.description r;
     ServiceRecord.createdAt := ServiceRecord.createdAt r;
     ServiceRecord.updatedAt := Some now |}.

(** [{ ...existingRecord, description, updatedAt: Opt.Some(now) }] *)
Definition setDescription (r : ServiceRecord.t) (description : string) (now : nat64)
  : ServiceRecord.t :=
  {| ServiceRecord.id := ServiceRecord.id r;
     ServiceRecord.name := ServiceRecord.name r;
     ServiceRecord.category := ServiceRecord.category r;
     ServiceRecord.provider := ServiceRecord.provider r;
     ServiceRecord.date := ServiceRecord.date r;
     ServiceRecord.startTime := ServiceRecord.startTime r;
     ServiceRecord.endTime := ServiceRecord.endTime r;
     ServiceRecord.location := ServiceRecord.location r;
     ServiceRecord.description := description;
     ServiceRecord.createdAt := ServiceRecord.createdAt r;
     ServiceRecord.updatedAt := Some now |}.

(** [{ id, createdAt, ...payload }] *)
Definition newReview (i : string) (now : nat64) (p : ReviewPayload.t)
  : ReviewRecord.t :=
  {| ReviewRecord.id := i;
     ReviewRecord.serviceId := ReviewPayload.serviceId p;
     ReviewRecord.userId := ReviewPayload.userId p;
     ReviewRecord.rating := ReviewPayload.rating p;
     ReviewRecord.comment := ReviewPayload.comment p;
     ReviewRecord.createdAt := now |}.

(** [{ id, createdAt, updatedAt: Opt.None, ...payload }] *)
Definition newUser (i : string) (now : nat64) (p : UserPayload.t) : User.t :=
  {| User.id := i;
     User.username := UserPayload.username p;
     User.email := UserPayload.email p;
     User.createdAt := now;
     User.updatedAt := None |}.

(** [{ ...user, ...payload, updatedAt: Opt.Some(now) }] *)
Definition mergeUser (u : User.t) (p : UserPayload.t) (now : nat64) : User.t :=
  {| User.id := User.id u;
     User.username := UserPayload.username p;
     User.email := UserPayload.email p;
     User.createdAt := User.createdAt u;
     User.updatedAt := Some now |}.
(** ** Services (first half) *)

Definition addService (payload : ServicePayload.t) (caller : Principal)
    (env : Env) (st : Stores) : Result ServiceRecord.t string * Stores :=
  if negb (truthy (ServicePayload.name payload))
     || negb (truthy (ServicePayload.category payload))
     || negb (truthy (ServicePayload.provider payload))
     || negb (truthy (ServicePayload.date payload))
     || negb (truthy (ServicePayload.startTime payload))
     || negb (truthy (ServicePayload.endTime payload))
     || negb (truthy (ServicePayload.location payload))
     || negb (truthy (ServicePayload.description payload))
  then (Err InvalidInput_service, st)
  else
    let record := newService (uuidv4 env) (time env) payload in
    (Ok record,
     withServices st (<[ServiceRecord.id record := record]> (serviceStorage st))).

(** Lines 69-91.  [existingRecord] is the object [get] returns: the test
    [!existingRecord] never fires and [existingRecord.provider] is
    [undefined], which is not the caller's text.  The merge and the insert
    that follow the second test are therefore never run. *)
Definition updateService (id : string) (payload : ServicePayload.t)
    (caller : Principal) (env : Env) (st : Stores)
  : Result ServiceRecord.t string * Stores :=
  let existingRecord := serviceStorage st !! id in
  if negb (truthyObject existingRecord) then (Err (NotFound_service id), st)
  else
    (if strictNotEqual (optProperty existingRecord "provider") (toString caller) as b
        return (strictNotEqual (optProperty existingRecord "provider")
                               (toString caller) = b → _)
     then fun _ => (Err Unauthorized_update_service, st)
     else fun H => unreachable H) eq_refl.

(** Lines 94-111: as above; the [remove] is never run. *)
Definition deleteService (id : string) (caller : Principal) (st : Stores)
  : Result ServiceRecord.t string * Stores :=
  let existingRecord := serviceStorage st !! id in
  if negb (truthyObject existingRecord) then (Err (NotFound_service id), st)
  else
    (if strictNotEqual (optProperty existingRecord "provider") (toString caller) as b
        return (strictNotEqual (optProperty existingRecord "provider")
                               (toString caller) = b → _)
     then fun _ => (Err Unauthorized_delete_service, st)
     else fun H => unreachable H) eq_refl.

(** Lines 114-123: the test never fires, and what is returned is the object
    of [get] itself, not the record in it. *)
Definition getService (id : string) (st : Stores)
  : Result (option ServiceRecord.t) string :=
  let existingRecord := serviceStorage st !! id in
  if negb (truthyObject existingRecord) then Err (NotFound_service id)
  else Ok existingRecord.

Definition getServices (st : Stores) : Result (list ServiceRecord.t) string :=
  Ok (values (serviceStorage st)).

Definition searchServicesByCategory (category : string) (st : Stores)
  : Result (list ServiceRecord.t) string :=
  let filteredServices :=
    List.filter
      (fun service =>
         String.eqb (toLowerCase (ServiceRecord.category service))
                    (toLowerCase category))
      (values (serviceStorage st)) in
  Ok filteredServices.

Definition filterServicesByProvider (provider : string) (st : Stores)
  : Result (list ServiceRecord.t) string :=
  let filteredServices :=
    List.filter
      (fun service =>
         String.eqb (toLowerCase (ServiceRecord.provider service))
                    (toLowerCase provider))
      (values (serviceStorage st)) in
  Ok filteredServices.

Definition filterServicesByDateRange (startDate endDate : string) (st : Stores)
  : Result (list ServiceRecord.t) string :=
  let filteredServices :=
    List.filter
      (fun service =>
         string_ge (ServiceRecord.date service) startDate
         && string_le (ServiceRecord.date service) endDate)
      (values (serviceStorage st)) in
  Ok filteredServices.

(** Lines 156-178: as [updateService]. *)
Definition updateServiceLocation (id location : string) (caller : Principal)
    (env : Env) (st : Stores) : Result ServiceRecord.t string * Stores :=
  let existingRecord := serviceStorage st !! id in
  if negb (truthyObject existingRecord) then (Err (NotFound_service id), st)
  else
    (if strictNotEqual (optProperty existingRecord "provider") (toString caller) as b
        return (strictNotEqual (optProperty existingRecord "provider")
                               (toString caller) = b → _)
     then fun _ => (Err Unauthorized_update_service, st)
     else fun H => unreachable H) eq_refl.

(** Lines 181-203: as [updateService]. *)
Definition updateServiceDescription (id description : string) (caller : Principal)
    (env : Env) (st : Stores) : Result ServiceRecord.t string * Stores :=
  let existingRecord := serviceStorage st !! id in
  if negb (truthyObject existingRecord) then (Err (NotFound_service id), st)
  else
    (if strictNotEqual (optProperty existingRecord "provider") (toString caller) as b
        return (strictNotEqual (optProperty existingRecord "provider")
                               (toString caller) = b → _)
     then fun _ => (Err Unauthorized_update_service, st)
     else fun H => unreachable H) eq_refl.

(** ** Reviews (first half) *)

(** Lines 205-229: [serviceExists] is the object [get] returns, so the
    test [!serviceExists] never fires and the review is stored whether or
    not a service is under its service id. *)
Definition addReview (payload : ReviewPayload.t) (caller : Principal)
    (env : Env) (st : Stores) : Result ReviewRecord.t string * Stores :=
  if negb (truthy (ReviewPayload.serviceId payload))
     || negb (truthy (ReviewPayload.userId payload))
     || PrimFloat.is_nan (ReviewPayload.rating payload)
     || PrimFloat.ltb (ReviewPayload.rating payload) 0
     || PrimFloat.ltb 5 (ReviewPayload.rating payload)
     || negb (truthy (ReviewPayload.comment payload))
  then (Err InvalidInput_review, st)
  else
    let serviceExists := serviceStorage st !! ReviewPayload.serviceId payload in
    if negb (truthyObject serviceExists) then (Err ServiceMissing, st)
    else
      let review := newReview (uuidv4 env) (time env) payload in
      (Ok review,
       withReviews st (<[ReviewRecord.id review := review]> (reviewStorage st))).

(** Lines 232-249: as [deleteService], on [existingReview.userId]. *)
Definition deleteReview (id : string) (caller : Principal) (st : Stores)
  : Result ReviewRecord.t string * Stores :=
  let existingReview := reviewStorage st !! id in
  if negb (truthyObject existingReview) then (Err (NotFound_review id), st)
  else
    (if strictNotEqual (optProperty existingReview "userId") (toString caller) as b
        return (strictNotEqual (optProperty existingReview "userId")
                               (toString caller) = b → _)
     then fun _ => (Err Unauthorized_delete_review, st)
     else fun H => unreachable H) eq_refl.

(** Lines 252-261: as [getService]. *)
Definition getReview (id : string) (st : Stores)
  : Result (option ReviewRecord.t) string :=
  let existingReview := reviewStorage st !! id in
  if negb (truthyObject existingReview) then Err (NotFound_review id)
  else Ok existingReview.

Definition getAllReviews (st : Stores) : Result (list ReviewRecord.t) string :=
  let reviews := values (reviewStorage st) in
  Ok reviews.

(** ** Users (first half) *)

Definition createUser (payload : UserPayload.t) (env : Env) (st : Stores)
  : Result User.t string * Stores :=
  if negb (truthy (UserPayload.username payload))
     || negb (truthy (UserPayload.email payload))
  then (Err InvalidInput_user, st)
  else
    let user := newUser (uuidv4 env) (time env) payload in
    (Ok user, withUsers st (<[User.id user := user]> (userStorage st))).

(** Lines 294-311: as [deleteService], on [existingUser.id]. *)
Definition deleteUser (id : string) (caller : Principal) (st : Stores)
  : Result User.t string * Stores :=
  let existingUser := userStorage st !! id in
  if negb (truthyObject existingUser) then (Err (NotFound_user id), st)
  else
    (if strictNotEqual (optProperty existingUser "id") (toString caller) as b
        return (strictNotEqual (optProperty existingUser "id")
                               (toString caller) = b → _)
     then fun _ => (Err Unauthorized_delete_user, st)
     else fun H => unreachable H) eq_refl.

(** Lines 314-323: as [getService]. *)
Definition getUser (id : string) (st : Stores) : Result (option User.t) string :=
  let existingUser := userStorage st !! id in
  if negb (truthyObject existingUser) then Err (NotFound_user id)
  else Ok existingUser.

Definition getAllUsers (st : Stores) : Result (list User.t) string :=
  let users := values (userStorage st) in
  Ok users.

(** ** The calls that only the second half has *)

(** [reviews.length] as a number; exact on every length an array can have. *)
Definition lengthNumber {A} (l : list A) : float :=
  PrimFloat.of_uint63 (Uint63.of_Z (Z.of_nat (length l))).

Definition getServiceReviews (serviceId : string) (st : Stores)
  : Result (list ReviewRecord.t) string :=
  let reviews :=
    List.filter (fun review => String.eqb (ReviewRecord.serviceId review) serviceId)
                (values (reviewStorage st)) in
  Ok reviews.

Definition getServiceAverageRating (serviceId : string) (st : Stores)
  : Result float string :=
  let reviews :=
    List.filter (fun review => String.eqb (ReviewRecord.serviceId review) serviceId)
                (values (reviewStorage st)) in
  if Nat.eqb (length reviews) 0 then Err NoReviews
  else
    let totalRating :=
      fold_left (fun sum review => PrimFloat.add sum (ReviewRecord.rating review))
                reviews 0%float in
    let averageRating := PrimFloat.div totalRating (lengthNumber reviews) in
    Ok averageRating.

Definition updateUser (id : string) (payload : UserPayload.t) (env : Env)
    (st : Stores) : Result User.t string * Stores :=
  match userStorage st !! id with
  | Some user =>
      let updatedUser := mergeUser user payload (time env) in
      (Ok updatedUser, withUsers st (<[User.id user := updatedUser]> (userStorage st)))
  | None => (Err (NotFound_user id), st)
  end.

Definition searchUsersByUsername (username : string) (st : Stores)
  : Result (list User.t) string :=
  let users :=
    List.filter
      (fun user => includes (toLowerCase (User.username user)) (toLowerCase username))
      (values (userStorage st)) in
  Ok users.

Definition searchUsersByEmail (email : string) (st : Stores)
  : Result (list User.t) string :=
  let users :=
    List.filter
      (fun user => includes (toLowerCase (User.email user)) (toLowerCase email))
      (values (userStorage st)) in
  Ok users.

(** ** The second half: no validation, no caller *)

Module Unguarded.

Definition addService (payload : ServicePayload.t) (env : Env) (st : Stores)
  : Result ServiceRecord.t string * Stores :=
  let record := newService (uuidv4 env) (time env) payload in
  (Ok record,
   withServices st (<[ServiceRecord.id record := record]> (serviceStorage st))).

Definition updateService (id : string) (payload : ServicePayload.t) (env : Env)
    (st : Stores) : Result ServiceRecord.t string * Stores :=
  match serviceStorage st !! id with
  | Some record =>
      let updatedRecord := mergeService record payload (time env) in
      (Ok updatedRecord,
       withServices st
         (<[ServiceRecord.id record := updatedRecord]> (serviceStorage st)))
  | None => (Err (NotFound_service id), st)
  end.

Definition deleteService (id : string) (st : Stores)
  : Result ServiceRecord.t string * Stores :=
  match serviceStorage st !! id with
  | Some deletedRecord =>
      (Ok deletedRecord, withServices st (delete id (serviceStorage st)))
  | None => (Err (NotFound_service id), st)
  end.

Definition updateServiceLocation (id location : string) (env : Env) (st : Stores)
  : Result ServiceRecord.t string * Stores :=
  match serviceStorage st !! id with
  | Some record =>
      let updatedRecord := setLocation record location (time env) in
      (Ok updatedRecord,
       withServices st
         (<[ServiceRecord.id record := updatedRecord]> (serviceStorage st)))
  | None => (Err (NotFound_service id), st)
  end.

Definition updateServiceDescription (id description : string) (env : Env)
    (st : Stores) : Result ServiceRecord.t string * Stores :=
  match serviceStorage st !! id with
  | Some record =>
      let updatedRecord := setDescription record description (time env) in
      (Ok updatedRecord,
       withServices st
         (<[ServiceRecord.id record := updatedRecord]> (serviceStorage st)))
  | None => (Err (NotFound_service id), st)
  end.

Definition addReview (payload : ReviewPayload.t) (env : Env) (st : Stores)
  : Result ReviewRecord.t string * Stores :=
  let review := newReview (uuidv4 env) (time env) payload in
  (Ok review,
   withReviews st (<[ReviewRecord.id review := review]> (reviewStorage st))).

Definition deleteReview (id : string) (st : Stores)
  : Result ReviewRecord.t string * Stores :=
  match reviewStorage st !! id with
  | Some deletedReview =>
      (Ok deletedReview, withReviews st (delete id (reviewStorage st)))
  | None => (Err (NotFound_review id), st)
  end.

Definition createUser (payload : UserPayload.t) (env : Env) (st : Stores)
  : Result User.t string * Stores :=
  let id := uuidv4 env in
  let user := newUser id (time env) payload in
  (Ok user, withUsers st (<[id := user]> (userStorage st))).

Definition deleteUser (id : string) (st : Stores)
  : Result User.t string * Stores :=
  match userStorage st !! id with
  | Some deletedUser =>
      (Ok deletedUser, withUsers st (delete id (userStorage st)))
  | None => (Err (NotFound_user id), st)
  end.

Definition getService (id : string) (st : Stores) : Result ServiceRecord.t string :=
  match serviceStorage st !! id with
  | Some record => Ok record
  | None => Err (NotFound_service id)
  end.

Definition getReview (id : string) (st : Stores) : Result ReviewRecord.t string :=
  match reviewStorage st !! id with
  | Some review => Ok review
  | None => Err (NotFound_review id)
  end.

Definition getUser (id : string) (st : Stores) : Result User.t string :=
  match userStorage st !! id with
  | Some user => Ok user
  | None => Err (NotFound_user id)
  end.

(** The update calls of the second half, with their arguments. *)
Inductive Call : Type :=
  | AddService (payload : ServicePayload.t)
  | UpdateService (id : string) (payload : ServicePayload.t)
  | DeleteService (id : string)
  | UpdateServiceLocation (id location : string)
  | UpdateServiceDescription (id description : string)
  | AddReview (payload : ReviewPayload.t)
  | DeleteReview (id : string)
  | CreateUser (payload : UserPayload.t)
  | DeleteUser (id : string)
  | UpdateUser (id : string) (payload : UserPayload.t).

(** The stores after one call of the second half. *)
Definition step (c : Call) (env : Env) (st : Stores) : Stores :=
  match c with
  | AddService payload => (addService payload env st).2
  | UpdateService id payload => (updateService id payload env st).2
  | DeleteService id => (deleteService id st).2
  | UpdateServiceLocation id location => (updateServiceLocation id location env st).2
  | UpdateServiceDescription id description =>
      (updateServiceDescription id description env st).2
  | AddReview payload => (addReview payload env st).2
  | DeleteReview id => (deleteReview id st).2
  | CreateUser payload => (createUser payload env st).2
  | DeleteUser id => (deleteUser id st).2
  | UpdateUser id payload => (updateUser id payload env st).2
  end.

(** The stores after a sequence of calls of the second half. *)
Fixpoint run (calls : list (Call * Env)) (st : Stores) : Stores :=
  match calls with
  | [] => st
  | (c, env) :: rest => run rest (step c env st)
  end.

End Unguarded.

(** * Notions of the specification *)

(** The stored reviews whose [serviceId] field equals the argument, as a
    sub-store: one entry per stored key. *)
Definition reviewsOf (serviceId : string) (st : Stores) : gmap string ReviewRecord.t :=
  filter (λ kv, ReviewRecord.serviceId kv.2 = serviceId) (reviewStorage st).

(** Sum of the values divided by their count, in binary64 arithmetic, the
    sum taken from the left starting at [0]. *)
Definition arithmeticMean (xs : list float) : float :=
  PrimFloat.div (fold_left PrimFloat.add xs 0%float) (lengthNumber xs).

(** A valid service payload: all eight required texts are non-empty. *)
Definition validServicePayload (p : ServicePayload.t) : Prop :=
  ServicePayload.name p ≠ "" ∧ ServicePayload.category p ≠ "" ∧
  ServicePayload.provider p ≠ "" ∧ ServicePayload.date p ≠ "" ∧
  ServicePayload.startTime p ≠ "" ∧ ServicePayload.endTime p ≠ "" ∧
  ServicePayload.location p ≠ "" ∧ ServicePayload.description p ≠ "".

(** Two stores agree on every service but the one under [id]. *)
Definition sameServicesBut (id : string) (st st' : Stores) : Prop :=
  (∀ j, j ≠ id → serviceStorage st' !! j = serviceStorage st !! j)
  ∧ reviewStorage st' = reviewStorage st
  ∧ userStorage st' = userStorage st.

(** A review payload that validation rejects: the rating is not a number,
    or below 0, or above 5, or the comment, the service id or the user id is
    empty. *)
Definition invalidReview (p : ReviewPayload.t) : Prop :=
  PrimFloat.is_nan (ReviewPayload.rating p) = true
  ∨ PrimFloat.ltb (ReviewPayload.rating p) 0 = true
  ∨ PrimFloat.ltb 5 (ReviewPayload.rating p) = true
  ∨ ReviewPayload.comment p = ""
  ∨ ReviewPayload.serviceId p = ""
  ∨ ReviewPayload.userId p = "".

(** The letters of the code units below 256 that come in two cases, each
    capital with its small letter, by code: A-Z with a-z, and the Latin-1
    capitals with their small letters. *)
Definition caseTable : list (N * N) :=
  [
   (65, 97); (66, 98); (67, 99); (68, 100); (69, 101); (70, 102);
   (71, 103); (72, 104); (73, 105); (74, 106); (75, 107); (76, 108);
   (77, 109); (78, 110); (79, 111); (80, 112); (81, 113); (82, 114);
   (83, 115); (84, 116); (85, 117); (86, 118); (87, 119); (88, 120);
   (89, 121); (90, 122); (192, 224); (193, 225); (194, 226); (195, 227);
   (196, 228); (197, 229); (198, 230); (199, 231); (200, 232); (201, 233);
   (202, 234); (203, 235); (204, 236); (205, 237); (206, 238); (207, 239);
   (208, 240); (209, 241); (210, 242); (211, 243); (212, 244); (213, 245);
   (214, 246); (216, 248); (217, 249); (218, 250); (219, 251); (220, 252);
   (221, 253); (222, 254)
  ]%N.

(** Two code units that are the same letter up to case: the same unit, or
    the two cases of one letter of the table. *)
Definition sameLetter (a b : ascii) : bool :=
  Ascii.eqb a b
  || existsb
       (fun p : N * N =>
          ((N_of_ascii a =? p.1) && (N_of_ascii b =? p.2)
           || (N_of_ascii a =? p.2) && (N_of_ascii b =? p.1))%N)
       caseTable.

(** Case-insensitive equality of two strings, unit by unit. *)
Fixpoint equalsIgnoreCase (x y : string) : bool :=
  match x, y with
  | EmptyString, EmptyString => true
  | String a x', String b y' => sameLetter a b && equalsIgnoreCase x' y'
  | _, _ => false
  end.

(** Lexicographic order on strings, by code unit: the empty string comes
    first, a smaller first unit decides, equal first units defer to the
    rest. *)
Inductive lex_le : string → string → Prop :=
  | lex_le_nil y : lex_le EmptyString y
  | lex_le_lt a b x y :
      (N_of_ascii a < N_of_ascii b)%N → lex_le (String a x) (String b y)
  | lex_le_eq a x y : lex_le x y → lex_le (String a x) (String a y).

(** Every code unit of the model, for checks by enumeration. *)
Definition allUnits : list ascii := List.map ascii_of_nat (seq 0 256).

(** * Sequences of calls and what the stores keep *)

(** The empty canister. *)
Definition emptyStores : Stores :=
  {| serviceStorage := ∅; reviewStorage := ∅; userStorage := ∅ |}.

(** The update calls of the first half, with their arguments. *)
Inductive Call : Type :=
  | AddService (payload : ServicePayload.t) (caller : Principal)
  | UpdateService (id : string) (payload : ServicePayload.t) (caller : Principal)
  | DeleteService (id : string) (caller : Principal)
  | UpdateServiceLocation (id location : string) (caller : Principal)
  | UpdateServiceDescription (id description : string) (caller : Principal)
  | AddReview (payload : ReviewPayload.t) (caller : Principal)
  | DeleteReview (id : string) (caller : Principal)
  | CreateUser (payload : UserPayload.t)
  | DeleteUser (id : string) (caller : Principal).

(** The stores after one call of the first half, made in the surroundings
    [env]. *)
Definition step (c : Call) (env : Env) (st : Stores) : Stores :=
  match c with
  | AddService payload caller => (addService payload caller env st).2
  | UpdateService id payload caller => (updateService id payload caller env st).2
  | DeleteService id caller => (deleteService id caller st).2
  | UpdateServiceLocation id location caller =>
      (updateServiceLocation id location caller env st).2
  | UpdateServiceDescription id description caller =>
      (updateServiceDescription id description caller env st).2
  | AddReview payload caller => (addReview payload caller env st).2
  | DeleteReview id caller => (deleteReview id caller st).2
  | CreateUser payload => (createUser payload env st).2
  | DeleteUser id caller => (deleteUser id caller st).2
  end.

(** The stores after a sequence of calls, one after the other. *)
Fixpoint run (calls : list (Call * Env)) (st : Stores) : Stores :=
  match calls with
  | [] => st
  | (c, env) :: rest => run rest (step c env st)
  end.

(** Every record of a store sits under its own [id]. *)
Definition keyedBy {A} (idOf : A → string) (m : gmap string A) : Prop :=
  ∀ k r, m !! k = Some r → idOf r = k.

Definition wellKeyed (st : Stores) : Prop :=
  keyedBy ServiceRecord.id (serviceStorage st)
  ∧ keyedBy ReviewRecord.id (reviewStorage st)
  ∧ keyedBy User.id (userStorage st).

(** A stored review as validation lets it in: a rating between 0 and 5 in
    the order of binary64 numbers, and non-empty texts. *)
Definition reviewInRange (r : ReviewRecord.t) : Prop :=
  PrimFloat.leb 0 (ReviewRecord.rating r) = true
  ∧ PrimFloat.leb (ReviewRecord.rating r) 5 = true
  ∧ ReviewRecord.comment r ≠ ""
  ∧ ReviewRecord.serviceId r ≠ ""
  ∧ ReviewRecord.userId r ≠ "".

Definition reviewsInRange (st : Stores) : Prop :=
  ∀ k r, reviewStorage st !! k = Some r → reviewInRange r.

(** [t] occurs in [s] as a run of consecutive code units. *)
Definition occursIn (t s : string) : Prop :=
  ∃ pre post, s = pre +:+ t +:+ post.

(** * Sample data *)

Definition samplePayload : ServicePayload.t :=
  {| ServicePayload.name := "Lunch box";
     ServicePayload.category := "Food";
     ServicePayload.provider := "alice";
     ServicePayload.date := "2024-01-15";
     ServicePayload.startTime := "12:00";
     ServicePayload.endTime := "13:00";
     ServicePayload.location := "Hall A";
     ServicePayload.description := "Daily lunch" |}.

Definition transferPayload : ServicePayload.t :=
  {| ServicePayload.name := "Brunch box";
     ServicePayload.category := "Catering";
     ServicePayload.provider := "bob";
     ServicePayload.date := "2024-02-01";
     ServicePayload.startTime := "10:00";
     ServicePayload.endTime := "11:00";
     ServicePayload.location := "Hall B";
     ServicePayload.description := "Weekend brunch" |}.

Definition sampleEnv : Env := {| uuidv4 := "s1"; time := 100%N |}.
Definition laterEnv : Env := {| uuidv4 := "s9"; time := 250%N |}.

Definition sampleService : ServiceRecord.t := newService "s1" 100%N samplePayload.
Definition lateService : ServiceRecord.t := newService "s2" 120%N transferPayload.

Definition sampleReview (i serviceId : string) (rating : float) : ReviewRecord.t :=
  {| ReviewRecord.id := i;
     ReviewRecord.serviceId := serviceId;
     ReviewRecord.userId := "carol";
     ReviewRecord.rating := rating;
     ReviewRecord.comment := "fine";
     ReviewRecord.createdAt := 130%N |}.

Definition sampleReviewPayload (rating : float) : ReviewPayload.t :=
  {| ReviewPayload.serviceId := "s1";
     ReviewPayload.userId := "carol";
     ReviewPayload.rating := rating;
     ReviewPayload.comment := "fine" |}.

Definition sampleStores : Stores :=
  {| serviceStorage := <["s1" := sampleService]> (<["s2" := lateService]> ∅);
     reviewStorage :=
       <["r1" := sampleReview "r1" "s1" 3%float]>
         (<["r2" := sampleReview "r2" "s1" 4%float]>
            (<["r3" := sampleReview "r3" "s1" 5%float]>
               (<["r4" := sampleReview "r4" "s2" 1%float]> ∅)));
     userStorage := ∅ |}.

Definition alice : Principal := {| toString := "alice" |}.
Definition Alice : Principal := {| toString := "Alice" |}.
Definition bob : Principal := {| toString := "bob" |}.
(** A valid review payload for the service id [serviceId]. *)
Definition newReviewPayloadFor (serviceId : string) : ReviewPayload.t :=
  {| ReviewPayload.serviceId := serviceId;
     ReviewPayload.userId := "carol";
     ReviewPayload.rating := 5%float;
     ReviewPayload.comment := "fine" |}.

(** A capital and a small letter of Latin-1, E with acute accent, as the
    one-unit strings of code units 201 and 233. *)
Definition capitalE : string := String (ascii_of_nat 201) EmptyString.
Definition smallE : string := String (ascii_of_nat 233) EmptyString.

(** * Properties *)

(** ** Enumerating a store *)

Section Values.
Context {A : Type}.
Implicit Types (m : gmap string A) (f : A → bool).

Lemma elem_of_values m x : x ∈ values m ↔ ∃ k, m !! k = Some x.
Proof.
  unfold values. rewrite list_elem_of_fmap. split.
  - intros [[k y] [-> Hin]]. exists k. by apply elem_of_map_to_list.
  - intros [k Hk]. exists (k, x). split; [done|]. by apply elem_of_map_to_list.
Qed.

Lemma values_empty : values (∅ : gmap string A) = [].
Proof. unfold values. by rewrite map_to_list_empty. Qed.

Lemma values_insert m i x : m !! i = None → values (<[i:=x]> m) ≡ₚ x :: values m.
Proof. intros Hi. unfold values. by rewrite map_to_list_insert. Qed.

(** The boolean filter of the source, as the filter of a decidable
    predicate. *)
Lemma List_filter_decide f (l : list A) :
  List.filter f l = filter (λ x, f x = true) l.
Proof.
  induction l as [|a l IH]; [done|]. simpl. rewrite filter_cons.
  destruct (f a) eqn:Hfa; case_decide; congruence.
Qed.

Lemma elem_of_List_filter f (l : list A) x :
  x ∈ List.filter f l ↔ x ∈ l ∧ f x = true.
Proof. rewrite List_filter_decide, list_elem_of_filter. tauto. Qed.

(** A filter over [values] keeps one value per stored key that passes. *)
Lemma values_filter f m :
  List.filter f (values m) ≡ₚ values (filter (λ kv, f kv.2 = true) m).
Proof.
  rewrite List_filter_decide.
  induction m as [|i x m Hi IH] using map_ind.
  - by rewrite map_filter_empty, !values_empty.
  - rewrite (values_insert _ _ _ Hi), filter_cons.
    case_decide as Hx.
    + rewrite map_filter_insert_True by done.
      rewrite values_insert, IH; [done|].
      apply map_lookup_filter_None. by left.
    + rewrite map_filter_insert_not' by (done || congruence).
      exact IH.
Qed.

Lemma values_filter_nil f m :
  List.filter f (values m) = [] ↔ ∀ k x, m !! k = Some x → f x = false.
Proof.
  split.
  - intros Hnil k x Hk. destruct (f x) eqn:Hfx; [|done].
    assert (x ∈ List.filter f (values m)) as Hin.
    { apply elem_of_List_filter. split; [|done]. apply elem_of_values. eauto. }
    rewrite Hnil in Hin. by apply not_elem_of_nil in Hin.
  - intros Hall. destruct (List.filter f (values m)) as [|y l] eqn:Hl; [done|].
    assert (y ∈ List.filter f (values m)) as Hin by (rewrite Hl; left).
    apply elem_of_List_filter in Hin as [[k Hk]%elem_of_values Hfy].
    rewrite (Hall k y Hk) in Hfy. discriminate.
Qed.
End Values.

(** The orderings of three values. *)
Lemma Permutation_three {A} (a b c : A) (l : list A) :
  l ≡ₚ [a; b; c] →
  l = [a; b; c] ∨ l = [a; c; b] ∨ l = [b; a; c] ∨
  l = [b; c; a] ∨ l = [c; a; b] ∨ l = [c; b; a].
Proof.
  intros Hp.
  destruct (Permutation_vs_cons_inv Hp) as (l1 & l2 & ->).
  symmetry in Hp. apply Permutation_cons_app_inv in Hp.
  apply Permutation_length_2_inv in Hp.
  destruct l1 as [|x [|y [|z l1]]]; simpl in *;
    destruct Hp as [Hp|Hp]; simplify_eq; auto 10;
    destruct l1; discriminate.
Qed.

(** ** Average rating *)

Lemma fold_left_rating (l : list ReviewRecord.t) (a : float) :
  fold_left (fun sum review => PrimFloat.add sum (ReviewRecord.rating review)) l a
  = fold_left PrimFloat.add (ReviewRecord.rating <$> l) a.
Proof. revert a. induction l as [|r l IH]; intros a; [done|]. simpl. apply IH. Qed.

Lemma lengthNumber_fmap {A B} (f : A → B) (l : list A) :
  lengthNumber (f <$> l) = lengthNumber l.
Proof. unfold lengthNumber. by rewrite length_fmap. Qed.

Lemma reviewsOf_values serviceId st :
  List.filter (fun review => String.eqb (ReviewRecord.serviceId review) serviceId)
              (values (reviewStorage st))
  ≡ₚ values (reviewsOf serviceId st).
Proof.
  rewrite values_filter. unfold reviewsOf.
  assert (filter (λ kv : string * ReviewRecord.t,
                    String.eqb (ReviewRecord.serviceId kv.2) serviceId = true)
                 (reviewStorage st)
          = filter (λ kv, ReviewRecord.serviceId kv.2 = serviceId) (reviewStorage st))
    as ->; [|done].
  apply map_filter_ext. intros i x _. simpl. apply String.eqb_eq.
Qed.

Lemma getServiceAverageRating_unfold serviceId st :
  getServiceAverageRating serviceId st =
  let reviews :=
    List.filter (fun review => String.eqb (ReviewRecord.serviceId review) serviceId)
                (values (reviewStorage st)) in
  match reviews with
  | [] => Err NoReviews
  | _ :: _ => Ok (arithmeticMean (ReviewRecord.rating <$> reviews))
  end.
Proof.
  unfold getServiceAverageRating, arithmeticMean. simpl.
  destruct (List.filter _ _) as [|r l] eqn:Hl; [done|].
  cbn [length Nat.eqb]. by rewrite fold_left_rating, lengthNumber_fmap.
Qed.

(** C1. [getServiceAverageRating serviceId] fails with [NoReviews] exactly
    when no stored review carries that [serviceId]; otherwise it returns the
    arithmetic mean (sum divided by count, in binary64) of the ratings of
    the stored reviews whose [serviceId] equals the argument, one rating per
    stored review, taken in the store's enumeration order; when those
    ratings are 3, 4 and 5 (in any order) the result is 4. *)
Theorem getServiceAverageRating_mean (serviceId : string) (st : Stores) :
  (getServiceAverageRating serviceId st = Err NoReviews
   ↔ ∀ k r, reviewStorage st !! k = Some r → ReviewRecord.serviceId r ≠ serviceId)
  ∧ ((∃ k r, reviewStorage st !! k = Some r ∧ ReviewRecord.serviceId r = serviceId) →
     ∃ l, l ≡ₚ values (reviewsOf serviceId st)
          ∧ l ≠ []
          ∧ getServiceAverageRating serviceId st
            = Ok (arithmeticMean (ReviewRecord.rating <$> l)))
  ∧ (ReviewRecord.rating <$> values (reviewsOf serviceId st)
       ≡ₚ [3%float; 4%float; 5%float] →
     getServiceAverageRating serviceId st = Ok 4%float).
Proof.
  rewrite getServiceAverageRating_unfold. cbv zeta.
  pose proof (reviewsOf_values serviceId st) as Hperm.
  pose proof (values_filter_nil
                (fun review => String.eqb (ReviewRecord.serviceId review) serviceId)
                (reviewStorage st)) as Hnil.
  destruct (List.filter _ _) as [|r0 l0] eqn:Hl.
  - split; [|split].
    + split; [|done]. intros _ k r Hk. apply String.eqb_neq.
      by apply (proj1 Hnil eq_refl k r).
    + intros (k & r & Hk & Heq). exfalso.
      pose proof (proj1 Hnil eq_refl k r Hk) as Hf.
      apply String.eqb_neq in Hf. done.
    + intros Hp. rewrite <- Hperm in Hp. simpl in Hp.
      apply Permutation_nil_l in Hp. discriminate.
  - split; [|split].
    + split; [discriminate|]. intros Hall. exfalso.
      assert (r0 ∈ List.filter
                (fun review => String.eqb (ReviewRecord.serviceId review) serviceId)
                (values (reviewStorage st))) as Hin by (rewrite Hl; left).
      apply elem_of_List_filter in Hin as [[k Hk]%elem_of_values Heq].
      apply String.eqb_eq in Heq. by apply (Hall k r0 Hk).
    + intros _. exists (r0 :: l0). done.
    + intros Hp. rewrite <- Hperm in Hp.
      apply Permutation_three in Hp.
      destruct Hp as [Hp|[Hp|[Hp|[Hp|[Hp|Hp]]]]]; rewrite Hp; reflexivity.
Qed.
(** ** Services: create, read, update, delete *)

Lemma truthy_nonempty (s : string) : truthy s = true ↔ s ≠ "".
Proof. destruct s; simpl; split; congruence. Qed.

Lemma negb_truthy_empty (s : string) : negb (truthy s) = true ↔ s = "".
Proof. destruct s; simpl; split; congruence. Qed.

Lemma strneb_true (a b : string) : negb (String.eqb a b) = true ↔ a ≠ b.
Proof. rewrite negb_true_iff. apply String.eqb_neq. Qed.

Lemma strneb_false (a b : string) : negb (String.eqb a b) = false ↔ a = b.
Proof. rewrite negb_false_iff. apply String.eqb_eq. Qed.

Lemma Unauthorized_not_NotFound (id : string) :
  Unauthorized_update_service ≠ NotFound_service id
  ∧ Unauthorized_delete_service ≠ NotFound_service id.
Proof. split; discriminate. Qed.

(** The first half refuses every update and every deletion: the test on
    the owner field compares [undefined] with the caller's text. *)
Lemma updateService_refuses id payload caller env st :
  updateService id payload caller env st = (Err Unauthorized_update_service, st).
Proof. reflexivity. Qed.

Lemma deleteService_refuses id caller st :
  deleteService id caller st = (Err Unauthorized_delete_service, st).
Proof. reflexivity. Qed.

Lemma updateServiceLocation_refuses id location caller env st :
  updateServiceLocation id location caller env st
  = (Err Unauthorized_update_service, st).
Proof. reflexivity. Qed.

Lemma updateServiceDescription_refuses id description caller env st :
  updateServiceDescription id description caller env st
  = (Err Unauthorized_update_service, st).
Proof. reflexivity. Qed.

Lemma deleteReview_refuses id caller st :
  deleteReview id caller st = (Err Unauthorized_delete_review, st).
Proof. reflexivity. Qed.

Lemma deleteUser_refuses id caller st :
  deleteUser id caller st = (Err Unauthorized_delete_user, st).
Proof. reflexivity. Qed.

(** C2. On a stored service, [updateService] with a caller whose text differs
    from the record's [provider] fails with the Unauthorized message, which
    is never the NotFound one, and leaves the stored record as it was; the
    call succeeds only when the two strings are equal.  The last part holds
    because the call succeeds on no input at all: the provider is refused
    like everyone else. *)
Theorem updateService_authorization
    (id : string) (payload : ServicePayload.t) (caller : Principal) (env : Env)
    (st : Stores) (rec : ServiceRecord.t) :
  serviceStorage st !! id = Some rec →
  (ServiceRecord.provider rec ≠ toString caller →
   updateService id payload caller env st = (Err Unauthorized_update_service, st)
   ∧ serviceStorage (updateService id payload caller env st).2 !! id = Some rec)
  ∧ Unauthorized_update_service ≠ NotFound_service id
  ∧ ((∃ r, (updateService id payload caller env st).1 = Ok r)
     → ServiceRecord.provider rec = toString caller)
  ∧ ¬ (∃ r, (updateService id payload caller env st).1 = Ok r).
Proof.
  intros Hrec. rewrite updateService_refuses. simpl.
  split; [by intros _|]. split; [apply Unauthorized_not_NotFound|].
  split; intros [r Hr]; discriminate.
Qed.

(** C3 (what the code does instead). [deleteService] answers with the
    Unauthorized message on every input, the provider of a stored service
    and an absent id included, and removes nothing; [getService] never
    fails: it returns the object of the lookup, which holds the record after
    the call as before it, and holds nothing for an absent id. *)
Theorem deleteService_never_deletes (id : string) (caller : Principal) (st : Stores) :
  deleteService id caller st = (Err Unauthorized_delete_service, st)
  ∧ Unauthorized_delete_service ≠ NotFound_service id
  ∧ getService id (deleteService id caller st).2 = Ok (serviceStorage st !! id)
  ∧ ∀ e, getService id st ≠ Err e.
Proof.
  rewrite deleteService_refuses. simpl.
  split; [done|]. split; [apply Unauthorized_not_NotFound|]. split; [done|].
  intros e. discriminate.
Qed.

(** C4 (what the code does instead). [updateServiceLocation] answers with
    the Unauthorized message on every input, the provider of a stored
    service included, and the stored record keeps its location and every
    other field. *)
Theorem updateServiceLocation_never_updates
    (id X : string) (caller : Principal) (env : Env) (st : Stores) :
  updateServiceLocation id X caller env st = (Err Unauthorized_update_service, st)
  ∧ ∀ old, serviceStorage st !! id = Some old →
           ServiceRecord.provider old = toString caller →
           serviceStorage (updateServiceLocation id X caller env st).2 !! id
           = Some old.
Proof. rewrite updateServiceLocation_refuses. by split. Qed.

Lemma addService_valid payload caller env st :
  validServicePayload payload →
  addService payload caller env st
  = (Ok (newService (uuidv4 env) (time env) payload),
     withServices st (<[uuidv4 env := newService (uuidv4 env) (time env) payload]>
                        (serviceStorage st))).
Proof.
  intros (H1 & H2 & H3 & H4 & H5 & H6 & H7 & H8). unfold addService.
  apply truthy_nonempty in H1, H2, H3, H4, H5, H6, H7, H8.
  by rewrite H1, H2, H3, H4, H5, H6, H7, H8.
Qed.

(** C6 (what the code does instead). On a valid payload [addService]
    succeeds and returns a record; [getService] of that record's id then
    succeeds too, but what it returns is the object of the lookup with the
    record inside, not the record. *)
Theorem addService_then_getService_wrapped
    (payload : ServicePayload.t) (caller : Principal) (env : Env) (st : Stores) :
  validServicePayload payload →
  ∃ record st',
    addService payload caller env st = (Ok record, st')
    ∧ getService (ServiceRecord.id record) st' = Ok (Some record).
Proof.
  intros Hvalid. rewrite (addService_valid _ _ _ _ Hvalid).
  eexists _, _. split; [reflexivity|].
  unfold getService. simpl. by rewrite lookup_insert_eq.
Qed.

(** C10 (what the code does instead). The guarded [updateService] answers
    with the Unauthorized message on every input: the provider of a stored
    service is refused, and the record keeps its provider and every other
    field, whatever the payload. *)
Theorem updateService_never_updates
    (id : string) (payload : ServicePayload.t) (caller : Principal) (env : Env)
    (st : Stores) :
  updateService id payload caller env st = (Err Unauthorized_update_service, st)
  ∧ ∀ old, serviceStorage st !! id = Some old →
           ServiceRecord.provider old = toString caller →
           serviceStorage (updateService id payload caller env st).2 !! id
           = Some old.
Proof. rewrite updateService_refuses. by split. Qed.

(** ** Review validation *)

Lemma addReview_guard (p : ReviewPayload.t) :
  negb (truthy (ReviewPayload.serviceId p))
  || negb (truthy (ReviewPayload.userId p))
  || PrimFloat.is_nan (ReviewPayload.rating p)
  || PrimFloat.ltb (ReviewPayload.rating p) 0
  || PrimFloat.ltb 5 (ReviewPayload.rating p)
  || negb (truthy (ReviewPayload.comment p)) = true
  ↔ invalidReview p.
Proof.
  unfold invalidReview. rewrite !orb_true_iff, !negb_truthy_empty. tauto.
Qed.

Lemma addReview_cases payload caller env st :
  (invalidReview payload
   ∧ addReview payload caller env st = (Err InvalidInput_review, st))
  ∨ (¬ invalidReview payload
     ∧ addReview payload caller env st
       = (Ok (newReview (uuidv4 env) (time env) payload),
          withReviews st (<[uuidv4 env := newReview (uuidv4 env) (time env) payload]>
                            (reviewStorage st)))).
Proof.
  pose proof (addReview_guard payload) as Hg. unfold addReview.
  destruct (_ || _) eqn:Hguard.
  - left. split; [by apply Hg | done].
  - right. split; [|done]. intros Hinv. apply Hg in Hinv. discriminate.
Qed.

(** C5 (what the code does instead). [addReview] fails with the InvalidInput
    message, leaving the stores as they were, exactly when the rating is not
    a number, or below 0, or above 5, or the comment, the service id or the
    user id is empty (a rating of 6 is rejected, 0 and 5 pass).  Every other
    payload is stored and returned, whether or not a service is stored under
    its service id: the call never answers ServiceMissing. *)
Theorem addReview_ignores_missing_service
    (payload : ReviewPayload.t) (caller : Principal) (env : Env) (st : Stores) :
  (addReview payload caller env st = (Err InvalidInput_review, st)
   ↔ invalidReview payload)
  ∧ ((∃ r, (addReview payload caller env st).1 = Ok r) ↔ ¬ invalidReview payload)
  ∧ (¬ invalidReview payload →
     serviceStorage st !! ReviewPayload.serviceId payload = None →
     addReview payload caller env st
     = (Ok (newReview (uuidv4 env) (time env) payload),
        withReviews st (<[uuidv4 env := newReview (uuidv4 env) (time env) payload]>
                          (reviewStorage st))))
  ∧ (addReview payload caller env st).1 ≠ Err ServiceMissing
  ∧ (ReviewPayload.rating payload = 6%float →
     addReview payload caller env st = (Err InvalidInput_review, st))
  ∧ (ReviewPayload.rating payload = 0%float ∨ ReviewPayload.rating payload = 5%float →
     ReviewPayload.comment payload ≠ "" →
     ReviewPayload.serviceId payload ≠ "" →
     ReviewPayload.userId payload ≠ "" →
     ∃ r, (addReview payload caller env st).1 = Ok r).
Proof.
  assert (∀ p, ReviewPayload.rating p = 6%float → invalidReview p) as Hsix.
  { intros p H6. right. right. left. by rewrite H6. }
  assert (∀ p, ReviewPayload.rating p = 0%float ∨ ReviewPayload.rating p = 5%float →
               ReviewPayload.comment p ≠ "" → ReviewPayload.serviceId p ≠ "" →
               ReviewPayload.userId p ≠ "" → ¬ invalidReview p) as Hbound.
  { intros p Hr Hc Hs Hu [H|[H|[H|[H|[H|H]]]]]; try done;
      destruct Hr as [Hr|Hr]; rewrite Hr in H; vm_compute in H; discriminate. }
  destruct (addReview_cases payload caller env st) as [[Hinv ->]|[Hok ->]]; simpl.
  - split; [done|]. split; [split; [intros [r Hr]; discriminate | tauto]|].
    split; [tauto|]. split; [discriminate|]. split; [done|].
    intros Hr Hc Hsid Hu. exfalso. by apply (Hbound payload).
  - split; [split; [discriminate | tauto]|]. split; [split; eauto|].
    split; [done|]. split; [discriminate|].
    split; [intros H6; exfalso; by apply Hok, Hsix | eauto].
Qed.

(** ** Case-insensitive filters *)

Lemma allUnits_complete (a : ascii) : In a allUnits.
Proof.
  rewrite <- (ascii_nat_embedding a). apply in_map, in_seq.
  pose proof (nat_ascii_bounded a). lia.
Qed.

Lemma lowerUnit_eqb (a b : ascii) :
  Ascii.eqb (lowerUnit a) (lowerUnit b) = sameLetter a b.
Proof.
  assert (forallb
            (fun a => forallb
               (fun b => Bool.eqb (Ascii.eqb (lowerUnit a) (lowerUnit b))
                                  (sameLetter a b))
               allUnits)
            allUnits = true) as Hall by (vm_compute; reflexivity).
  rewrite forallb_forall in Hall.
  specialize (Hall a (allUnits_complete a)).
  rewrite forallb_forall in Hall.
  specialize (Hall b (allUnits_complete b)).
  by apply Bool.eqb_prop in Hall.
Qed.

(** Comparing the lower-cased strings is comparing up to case. *)
Lemma toLowerCase_eqb (x y : string) :
  String.eqb (toLowerCase x) (toLowerCase y) = equalsIgnoreCase x y.
Proof.
  revert y. induction x as [|a x IH]; intros [|b y]; simpl; try done.
  by rewrite lowerUnit_eqb, IH.
Qed.

Lemma filter_values_spec {A} (f : A → bool) (m : gmap string A) :
  (∀ r, r ∈ List.filter f (values m) ↔ (∃ k, m !! k = Some r) ∧ f r = true)
  ∧ List.filter f (values m) ≡ₚ values (filter (λ kv, f kv.2 = true) m).
Proof.
  split; [|apply values_filter].
  intros r. by rewrite elem_of_List_filter, elem_of_values.
Qed.

(** C7. [searchServicesByCategory] returns the stored services whose
    [category] equals the argument up to case, one per stored entry, and
    [filterServicesByProvider] does the same on [provider]; so the searches
    for "Food" and for "food" return the same list on every store, and a
    service whose category is the capital E with acute accent is found by
    the small one. *)
Theorem search_filter_case_insensitive (st : Stores) :
  (∀ category, ∃ l,
      searchServicesByCategory category st = Ok l
      ∧ (∀ r, r ∈ l ↔ (∃ k, serviceStorage st !! k = Some r)
                      ∧ equalsIgnoreCase (ServiceRecord.category r) category = true)
      ∧ l ≡ₚ values (filter
                       (λ kv, equalsIgnoreCase (ServiceRecord.category kv.2) category
                              = true)
                       (serviceStorage st)))
  ∧ (∀ provider, ∃ l,
      filterServicesByProvider provider st = Ok l
      ∧ (∀ r, r ∈ l ↔ (∃ k, serviceStorage st !! k = Some r)
                      ∧ equalsIgnoreCase (ServiceRecord.provider r) provider = true)
      ∧ l ≡ₚ values (filter
                       (λ kv, equalsIgnoreCase (ServiceRecord.provider kv.2) provider
                              = true)
                       (serviceStorage st)))
  ∧ searchServicesByCategory "Food" st = searchServicesByCategory "food" st
  ∧ filterServicesByProvider "Food" st = filterServicesByProvider "food" st
  ∧ (∀ k r, serviceStorage st !! k = Some r → ∃ l,
       searchServicesByCategory "food" st = Ok l
       ∧ (ServiceRecord.category r = "FOOD" → r ∈ l)
       ∧ (ServiceRecord.category r = "Food" → r ∈ l)
       ∧ (ServiceRecord.category r = "foo" → r ∉ l)
       ∧ (ServiceRecord.category r = "f00d" → r ∉ l))
  ∧ (∀ k r, serviceStorage st !! k = Some r → ∃ l,
       searchServicesByCategory smallE st = Ok l
       ∧ (ServiceRecord.category r = capitalE → r ∈ l)
       ∧ (ServiceRecord.category r = "E" → r ∉ l)).
Proof.
  split; [|split; [|split; [|split; [|split]]]].
  - intros category. eexists. split; [reflexivity|].
    destruct (filter_values_spec
                (fun service => equalsIgnoreCase (ServiceRecord.category service) category)
                (serviceStorage st)) as [Hin Hperm].
    assert (List.filter
              (fun service =>
                 String.eqb (toLowerCase (ServiceRecord.category service))
                            (toLowerCase category))
              (values (serviceStorage st))
            = List.filter
                (fun service => equalsIgnoreCase (ServiceRecord.category service) category)
                (values (serviceStorage st))) as ->; [|done].
    apply List.filter_ext. intros r. apply toLowerCase_eqb.
  - intros provider. eexists. split; [reflexivity|].
    destruct (filter_values_spec
                (fun service => equalsIgnoreCase (ServiceRecord.provider service) provider)
                (serviceStorage st)) as [Hin Hperm].
    assert (List.filter
              (fun service =>
                 String.eqb (toLowerCase (ServiceRecord.provider service))
                            (toLowerCase provider))
              (values (serviceStorage st))
            = List.filter
                (fun service => equalsIgnoreCase (ServiceRecord.provider service) provider)
                (values (serviceStorage st))) as ->; [|done].
    apply List.filter_ext. intros r. apply toLowerCase_eqb.
  - reflexivity.
  - reflexivity.
  - intros k r Hk. eexists. split; [reflexivity|].
    repeat split; intros Hc.
    1-2: apply elem_of_List_filter; split;
         [apply elem_of_values; eauto | by rewrite Hc].
    all: intros [_ Hf]%elem_of_List_filter; rewrite Hc in Hf; discriminate.
  - intros k r Hk. eexists. split; [reflexivity|].
    repeat split; intros Hc.
    + apply elem_of_List_filter; split;
        [apply elem_of_values; eauto | by rewrite Hc].
    + intros [_ Hf]%elem_of_List_filter. rewrite Hc in Hf. discriminate.
Qed.

(** ** Date range *)

Lemma N_of_ascii_inj (a b : ascii) : N_of_ascii a = N_of_ascii b → a = b.
Proof.
  intros H. rewrite <- (ascii_N_embedding a), <- (ascii_N_embedding b). by rewrite H.
Qed.

(** [x <= y] of the source decides the lexicographic order. *)
Lemma string_le_lex (x y : string) : string_le x y = true ↔ lex_le x y.
Proof.
  unfold string_le. revert y.
  induction x as [|a x IH]; intros [|b y]; simpl.
  - split; [constructor | done].
  - split; [constructor | done].
  - split; [discriminate | inversion 1].
  - destruct (Ascii.eqb b a) eqn:Hba.
    + apply Ascii.eqb_eq in Hba as ->. rewrite IH. split.
      * by constructor.
      * inversion 1; subst; [lia | done].
    + apply Ascii.eqb_neq in Hba. rewrite negb_true_iff, N.ltb_ge. split.
      * intros Hle. constructor.
        assert (N_of_ascii a ≠ N_of_ascii b) by (intros ?%N_of_ascii_inj; congruence).
        lia.
      * inversion 1; subst; [lia | congruence].
Qed.

Lemma string_ge_lex (x y : string) : string_ge x y = true ↔ lex_le y x.
Proof. apply (string_le_lex y x). Qed.

Lemma inRange_lex (startDate endDate d : string) :
  string_ge d startDate && string_le d endDate = true
  ↔ lex_le startDate d ∧ lex_le d endDate.
Proof. by rewrite andb_true_iff, string_ge_lex, string_le_lex. Qed.

(** C8. [filterServicesByDateRange startDate endDate] returns the stored
    services whose [date] lies between the two bounds in lexicographic
    order, both bounds included: the values of the sub-store made of
    those entries; between
    "2024-01-01" and "2024-01-31" a stored service dated "2024-01-15" is
    returned and one dated "2024-02-01" is not. *)
Theorem filterServicesByDateRange_inclusive (st : Stores) :
  (∀ startDate endDate, ∃ l,
      filterServicesByDateRange startDate endDate st = Ok l
      ∧ (∀ r, r ∈ l ↔ (∃ k, serviceStorage st !! k = Some r)
                      ∧ lex_le startDate (ServiceRecord.date r)
                      ∧ lex_le (ServiceRecord.date r) endDate)
      ∧ ∃ m : gmap string ServiceRecord.t,
          (∀ k r, m !! k = Some r
                  ↔ serviceStorage st !! k = Some r
                    ∧ lex_le startDate (ServiceRecord.date r)
                    ∧ lex_le (ServiceRecord.date r) endDate)
          ∧ l ≡ₚ values m)
  ∧ (∀ k r, serviceStorage st !! k = Some r → ∃ l,
      filterServicesByDateRange "2024-01-01" "2024-01-31" st = Ok l
      ∧ (ServiceRecord.date r = "2024-01-15" → r ∈ l)
      ∧ (ServiceRecord.date r = "2024-01-01" → r ∈ l)
      ∧ (ServiceRecord.date r = "2024-01-31" → r ∈ l)
      ∧ (ServiceRecord.date r = "2024-02-01" → r ∉ l)).
Proof.
  split.
  - intros startDate endDate. eexists. split; [reflexivity|].
    destruct (filter_values_spec
                (fun service =>
                   string_ge (ServiceRecord.date service) startDate
                   && string_le (ServiceRecord.date service) endDate)
                (serviceStorage st)) as [Hin Hperm].
    split.
    + intros r. rewrite Hin, inRange_lex. tauto.
    + eexists. split; [|exact Hperm].
      intros k r. rewrite map_lookup_filter_Some. simpl. by rewrite inRange_lex.
  - intros k r Hk. eexists. split; [reflexivity|].
    repeat split; intros Hd.
    1-3: apply elem_of_List_filter; split;
         [apply elem_of_values; eauto | by rewrite Hd].
    intros [_ Hf]%elem_of_List_filter. rewrite Hd in Hf. discriminate.
Qed.

(** ** Queries never fail *)

(** C9. Every enumeration, filter and search returns the success branch,
    with a list, on every argument and every state of the stores; for a
    service id that no stored review carries, [getServiceReviews] returns
    the empty list. *)
Theorem queries_total (st : Stores) :
  (∃ l, getServices st = Ok l)
  ∧ (∀ category, ∃ l, searchServicesByCategory category st = Ok l)
  ∧ (∀ provider, ∃ l, filterServicesByProvider provider st = Ok l)
  ∧ (∀ startDate endDate, ∃ l, filterServicesByDateRange startDate endDate st = Ok l)
  ∧ (∀ serviceId, ∃ l, getServiceReviews serviceId st = Ok l)
  ∧ (∃ l, getAllReviews st = Ok l)
  ∧ (∃ l, getAllUsers st = Ok l)
  ∧ (∀ username, ∃ l, searchUsersByUsername username st = Ok l)
  ∧ (∀ email, ∃ l, searchUsersByEmail email st = Ok l)
  ∧ (∀ serviceId,
       getServiceReviews serviceId st = Ok []
       ↔ ∀ k r, reviewStorage st !! k = Some r → ReviewRecord.serviceId r ≠ serviceId).
Proof.
  repeat (split; [by (intros; eexists) || (intros; by eexists)|]).
  intros serviceId. unfold getServiceReviews. cbv zeta.
  pose proof (values_filter_nil
                (fun review => String.eqb (ReviewRecord.serviceId review) serviceId)
                (reviewStorage st)) as Hnil.
  split.
  - intros [= Hl] k r Hk. apply String.eqb_neq. by apply (proj1 Hnil Hl k r).
  - intros Hall. f_equal. apply Hnil. intros k r Hk.
    apply String.eqb_neq. by apply (Hall k r).
Qed.
(** ** The properties at the sample data *)

Lemma sample_s1 : serviceStorage sampleStores !! "s1" = Some sampleService.
Proof. reflexivity. Defined.

(** Ratings 3, 4 and 5 stored for "s1" average to 4. *)
Lemma getServiceAverageRating_mean_witness :
  getServiceAverageRating "s1" sampleStores = Ok 4%float.
Proof.
  apply (getServiceAverageRating_mean "s1" sampleStores).
  change (ReviewRecord.rating <$> values (reviewsOf "s1" sampleStores))
    with [5%float; 3%float; 4%float].
  etransitivity; [apply perm_swap|]. apply perm_skip, perm_swap.
Defined.

(** "Alice" is not "alice": the update is refused and nothing changes. *)
Lemma updateService_authorization_witness :
  updateService "s1" transferPayload Alice laterEnv sampleStores
  = (Err Unauthorized_update_service, sampleStores)
  ∧ serviceStorage
      (updateService "s1" transferPayload Alice laterEnv sampleStores).2 !! "s1"
    = Some sampleService.
Proof.
  apply (updateService_authorization
           "s1" transferPayload Alice laterEnv sampleStores sampleService sample_s1).
  discriminate.
Defined.

(** alice, the provider of "s1", may not delete it, and it stays. *)
Lemma deleteService_never_deletes_witness :
  deleteService "s1" alice sampleStores
  = (Err Unauthorized_delete_service, sampleStores)
  ∧ getService "s1" (deleteService "s1" alice sampleStores).2
    = Ok (Some sampleService)
  ∧ getService "zz" sampleStores = Ok None.
Proof.
  split; [apply (deleteService_never_deletes "s1" alice sampleStores)|].
  split; [apply (deleteService_never_deletes "s1" alice sampleStores)|].
  reflexivity.
Defined.

(** alice may not move her own service: it stays in "Hall A". *)
Lemma updateServiceLocation_never_updates_witness :
  updateServiceLocation "s1" "Hall C" alice laterEnv sampleStores
  = (Err Unauthorized_update_service, sampleStores)
  ∧ serviceStorage
      (updateServiceLocation "s1" "Hall C" alice laterEnv sampleStores).2 !! "s1"
    = Some sampleService.
Proof.
  split.
  - apply (updateServiceLocation_never_updates "s1" "Hall C" alice laterEnv sampleStores).
  - apply (updateServiceLocation_never_updates "s1" "Hall C" alice laterEnv sampleStores);
      reflexivity.
Defined.

(** A review with rating 5 for "zz", under which no service is stored, is
    accepted. *)
Lemma addReview_ignores_missing_service_witness :
  serviceStorage sampleStores !! "zz" = None
  ∧ addReview (newReviewPayloadFor "zz") bob laterEnv sampleStores
    = (Ok (newReview "s9" 250%N (newReviewPayloadFor "zz")),
       withReviews sampleStores
         (<["s9" := newReview "s9" 250%N (newReviewPayloadFor "zz")]>
            (reviewStorage sampleStores))).
Proof.
  split; [reflexivity|].
  apply (addReview_ignores_missing_service
           (newReviewPayloadFor "zz") bob laterEnv sampleStores).
  - intros [H|[H|[H|[H|[H|H]]]]]; discriminate.
  - reflexivity.
Defined.

(** Adding the sample payload and reading it back gives the wrapper. *)
Lemma addService_then_getService_wrapped_witness :
  ∃ record st',
    addService samplePayload alice laterEnv sampleStores = (Ok record, st')
    ∧ getService (ServiceRecord.id record) st' = Ok (Some record).
Proof.
  apply (addService_then_getService_wrapped samplePayload alice laterEnv sampleStores).
  repeat split; discriminate.
Defined.

(** Of the two sample services only the one dated 2024-01-15 is in January. *)
Lemma filterServicesByDateRange_inclusive_witness :
  ∃ l, filterServicesByDateRange "2024-01-01" "2024-01-31" sampleStores = Ok l
       ∧ sampleService ∈ l.
Proof.
  destruct (proj2 (filterServicesByDateRange_inclusive sampleStores)
              "s1" sampleService sample_s1) as (l & Hl & Hin & _).
  exists l. split; [exact Hl|]. apply Hin. reflexivity.
Defined.

(** No review is stored for "zz". *)
Lemma queries_total_witness : getServiceReviews "zz" sampleStores = Ok [].
Proof.
  apply (queries_total sampleStores).
  apply (bool_decide_unpack
           (map_Forall (λ _ r, ReviewRecord.serviceId r ≠ "zz")
                       (reviewStorage sampleStores))).
  vm_compute. exact I.
Defined.

(** alice may not hand "s1" over to bob: the provider stays alice. *)
Lemma updateService_never_updates_witness :
  updateService "s1" transferPayload alice laterEnv sampleStores
  = (Err Unauthorized_update_service, sampleStores)
  ∧ serviceStorage
      (updateService "s1" transferPayload alice laterEnv sampleStores).2 !! "s1"
    = Some sampleService.
Proof.
  split.
  - apply (updateService_never_updates "s1" transferPayload alice laterEnv sampleStores).
  - apply (updateService_never_updates "s1" transferPayload alice laterEnv sampleStores);
      reflexivity.
Defined.

(** * Further properties *)

(** ** Creating a service *)

Lemma addService_invalid payload caller env st :
  ¬ validServicePayload payload →
  addService payload caller env st = (Err InvalidInput_service, st).
Proof.
  intros Hinv. unfold addService.
  destruct (_ || _) eqn:Hguard; [done|]. exfalso. apply Hinv.
  repeat (apply orb_false_iff in Hguard as [Hguard ?]).
  unfold validServicePayload.
  repeat split; apply truthy_nonempty; by apply negb_false_iff.
Qed.

(** X1. [addService] refuses a payload, with the InvalidInput message and the
    stores as they were, exactly when one of its eight texts is empty, and
    succeeds exactly when none is; what the stores hold plays no part. *)
Theorem addService_validation
    (payload : ServicePayload.t) (caller : Principal) (env : Env) (st : Stores) :
  (addService payload caller env st = (Err InvalidInput_service, st)
   ↔ ¬ validServicePayload payload)
  ∧ ((∃ r, (addService payload caller env st).1 = Ok r)
     ↔ validServicePayload payload).
Proof.
  destruct (decide (validServicePayload payload)) as [Hv|Hv].
  - rewrite (addService_valid _ _ _ _ Hv). simpl. split.
    + split; [discriminate | done].
    + split; [done | eauto].
  - rewrite (addService_invalid _ _ _ _ Hv). simpl. split.
    + done.
    + split; [intros [r Hr]; discriminate | done].
Qed.

(** X2. A successful [addService] writes one entry, under the generated id:
    the record has that id, the time of the call as [createdAt] and no
    [updatedAt]; every other service, every review and every user stays.
    The listing afterwards is the new record and what was stored under
    other keys, so a record already stored under the generated id is
    replaced, not kept beside the new one. *)
Theorem addService_store_effect
    (payload : ServicePayload.t) (caller : Principal) (env : Env) (st : Stores) :
  validServicePayload payload →
  ∃ r st',
    addService payload caller env st = (Ok r, st')
    ∧ ServiceRecord.id r = uuidv4 env
    ∧ ServiceRecord.createdAt r = time env
    ∧ ServiceRecord.updatedAt r = None
    ∧ serviceStorage st' !! uuidv4 env = Some r
    ∧ sameServicesBut (uuidv4 env) st st'
    ∧ ∃ l, getServices st' = Ok l
           ∧ l ≡ₚ r :: values (delete (uuidv4 env) (serviceStorage st)).
Proof.
  intros Hv. rewrite (addService_valid _ _ _ _ Hv).
  eexists _, _. split; [reflexivity|]. simpl.
  rewrite lookup_insert_eq. repeat (split; [reflexivity|]).
  split.
  - split; [|done]. intros j Hj. simpl. by rewrite lookup_insert_ne.
  - eexists. split; [reflexivity|]. simpl.
    rewrite <- insert_delete_eq. apply values_insert, lookup_delete_eq.
Qed.
(** ** What the first half refuses *)

(** X3. In the first half, [updateServiceDescription], [deleteReview] and
    [deleteUser] answer with their Unauthorized message on every input and
    leave the stores as they were: the provider of a stored service cannot
    change its description, the author of a stored review cannot delete it,
    and a user cannot be deleted even by the caller whose text is the user's
    id; for an id under which nothing is stored the answer is the same, not
    NotFound. *)
Theorem guarded_owner_calls_refused
    (id text : string) (caller : Principal) (env : Env) (st : Stores) :
  updateServiceDescription id text caller env st
  = (Err Unauthorized_update_service, st)
  ∧ deleteReview id caller st = (Err Unauthorized_delete_review, st)
  ∧ deleteUser id caller st = (Err Unauthorized_delete_user, st)
  ∧ (∀ old, serviceStorage st !! id = Some old →
            ServiceRecord.provider old = toString caller →
            serviceStorage (updateServiceDescription id text caller env st).2 !! id
            = Some old)
  ∧ (∀ old, reviewStorage st !! id = Some old →
            ReviewRecord.userId old = toString caller →
            reviewStorage (deleteReview id caller st).2 !! id = Some old)
  ∧ (∀ old, userStorage st !! id = Some old →
            User.id old = toString caller →
            userStorage (deleteUser id caller st).2 !! id = Some old)
  ∧ Unauthorized_delete_review ≠ NotFound_review id
  ∧ Unauthorized_delete_user ≠ NotFound_user id.
Proof.
  rewrite updateServiceDescription_refuses, deleteReview_refuses, deleteUser_refuses.
  simpl. repeat split; try done; discriminate.
Qed.

(** ** The updates of the second half *)

(** X4. The updates of the second half ask for no caller.  On an id under
    which nothing is stored each fails with NotFound and leaves the stores
    as they were; otherwise [updateService] returns the stored record with
    the eight payload fields, the provider among them, and
    [updateServiceLocation] and [updateServiceDescription] return it with
    the one field changed; [updatedAt] is the time of the call, [id] and
    [createdAt] stay, the result is written under the record's own [id]
    field and nothing else in the stores changes. *)
Theorem unguarded_updates
    (id text : string) (payload : ServicePayload.t) (env : Env) (st : Stores) :
  (serviceStorage st !! id = None →
   Unguarded.updateService id payload env st = (Err (NotFound_service id), st)
   ∧ Unguarded.updateServiceLocation id text env st = (Err (NotFound_service id), st)
   ∧ Unguarded.updateServiceDescription id text env st
     = (Err (NotFound_service id), st))
  ∧ ∀ old, serviceStorage st !! id = Some old →
      (∃ r st',
         Unguarded.updateService id payload env st = (Ok r, st')
         ∧ r = mergeService old payload (time env)
         ∧ ServiceRecord.provider r = ServicePayload.provider payload
         ∧ ServiceRecord.id r = ServiceRecord.id old
         ∧ ServiceRecord.createdAt r = ServiceRecord.createdAt old
         ∧ ServiceRecord.updatedAt r = Some (time env)
         ∧ serviceStorage st' !! ServiceRecord.id old = Some r
         ∧ sameServicesBut (ServiceRecord.id old) st st')
      ∧ (∃ r st',
           Unguarded.updateServiceLocation id text env st = (Ok r, st')
           ∧ ServiceRecord.location r = text
           ∧ ServiceRecord.updatedAt r = Some (time env)
           ∧ ServiceRecord.id r = ServiceRecord.id old
           ∧ ServiceRecord.name r = ServiceRecord.name old
           ∧ ServiceRecord.category r = ServiceRecord.category old
           ∧ ServiceRecord.provider r = ServiceRecord.provider old
           ∧ ServiceRecord.date r = ServiceRecord.date old
           ∧ ServiceRecord.startTime r = ServiceRecord.startTime old
           ∧ ServiceRecord.endTime r = ServiceRecord.endTime old
           ∧ ServiceRecord.description r = ServiceRecord.description old
           ∧ ServiceRecord.createdAt r = ServiceRecord.createdAt old
           ∧ serviceStorage st' !! ServiceRecord.id old = Some r
           ∧ sameServicesBut (ServiceRecord.id old) st st')
      ∧ (∃ r st',
           Unguarded.updateServiceDescription id text env st = (Ok r, st')
           ∧ ServiceRecord.description r = text
           ∧ ServiceRecord.updatedAt r = Some (time env)
           ∧ ServiceRecord.id r = ServiceRecord.id old
           ∧ ServiceRecord.name r = ServiceRecord.name old
           ∧ ServiceRecord.category r = ServiceRecord.category old
           ∧ ServiceRecord.provider r = ServiceRecord.provider old
           ∧ ServiceRecord.date r = ServiceRecord.date old
           ∧ ServiceRecord.startTime r = ServiceRecord.startTime old
           ∧ ServiceRecord.endTime r = ServiceRecord.endTime old
           ∧ ServiceRecord.location r = ServiceRecord.location old
           ∧ ServiceRecord.createdAt r = ServiceRecord.createdAt old
           ∧ serviceStorage st' !! ServiceRecord.id old = Some r
           ∧ sameServicesBut (ServiceRecord.id old) st st').
Proof.
  unfold Unguarded.updateService, Unguarded.updateServiceLocation,
    Unguarded.updateServiceDescription.
  split.
  - intros Hnone. by rewrite Hnone.
  - intros old Hold. rewrite Hold.
    assert (∀ r, sameServicesBut (ServiceRecord.id old) st
                   (withServices st (<[ServiceRecord.id old := r]> (serviceStorage st))))
      as Hframe.
    { intros r. split; [|done]. intros j Hj. simpl. by rewrite lookup_insert_ne. }
    split; [|split]; eexists _, _; (split; [reflexivity|]); simpl;
      rewrite lookup_insert_eq; repeat (split; [reflexivity|]); apply Hframe.
Qed.

(** ** Reading one record *)

(** X5. The lookups by id of the first half never fail, whatever the id:
    [getService], [getReview] and [getUser] return the object of the lookup
    in the success branch, which holds the record when one is stored under
    the id and holds nothing otherwise; the NotFound message is never
    returned. *)
Theorem guarded_lookups_never_fail (id : string) (st : Stores) :
  getService id st = Ok (serviceStorage st !! id)
  ∧ getReview id st = Ok (reviewStorage st !! id)
  ∧ getUser id st = Ok (userStorage st !! id)
  ∧ (serviceStorage st !! id = None → getService id st = Ok None)
  ∧ (reviewStorage st !! id = None → getReview id st = Ok None)
  ∧ (userStorage st !! id = None → getUser id st = Ok None)
  ∧ (∀ e, getService id st ≠ Err e)
  ∧ (∀ e, getReview id st ≠ Err e)
  ∧ (∀ e, getUser id st ≠ Err e).
Proof.
  unfold getService, getReview, getUser. simpl.
  repeat split; try discriminate; by intros ->.
Qed.

Lemma length_append (s t : string) :
  String.length (s +:+ t) = String.length s + String.length t.
Proof. induction s as [|a s IH]; simpl; [done | by rewrite IH]. Qed.

Lemma append_inj_l (s s' t : string) : s +:+ t = s' +:+ t → s = s'.
Proof.
  intros Heq.
  assert (String.length s = String.length s') as Hlen.
  { apply (f_equal String.length) in Heq. rewrite !length_append in Heq. lia. }
  revert s' Heq Hlen. induction s as [|a s IH]; intros [|b s']; simpl;
    intros Heq Hlen; try done.
  injection Heq as -> Heq. f_equal. apply IH; [done | lia].
Qed.

(** X6. The lookups by id of the second half return the record stored under
    the id, and fail exactly when there is none; the NotFound message then
    carries the id, so that different ids never give the same message, and
    none of the three calls fails with the message of another. *)
Theorem unguarded_lookups_by_id (id : string) (st : Stores) :
  (∀ r, Unguarded.getService id st = Ok r ↔ serviceStorage st !! id = Some r)
  ∧ (∀ r, Unguarded.getReview id st = Ok r ↔ reviewStorage st !! id = Some r)
  ∧ (∀ r, Unguarded.getUser id st = Ok r ↔ userStorage st !! id = Some r)
  ∧ (∀ e, Unguarded.getService id st = Err e
          ↔ serviceStorage st !! id = None ∧ e = NotFound_service id)
  ∧ (∀ e, Unguarded.getReview id st = Err e
          ↔ reviewStorage st !! id = None ∧ e = NotFound_review id)
  ∧ (∀ e, Unguarded.getUser id st = Err e
          ↔ userStorage st !! id = None ∧ e = NotFound_user id)
  ∧ (∀ id', (NotFound_service id = NotFound_service id' → id = id')
            ∧ (NotFound_review id = NotFound_review id' → id = id')
            ∧ (NotFound_user id = NotFound_user id' → id = id')
            ∧ NotFound_service id ≠ NotFound_review id'
            ∧ NotFound_service id ≠ NotFound_user id'
            ∧ NotFound_review id ≠ NotFound_user id').
Proof.
  unfold Unguarded.getService, Unguarded.getReview, Unguarded.getUser.
  split; [|split; [|split; [|split; [|split; [|split]]]]].
  - intros r. destruct (serviceStorage st !! id); split; congruence.
  - intros r. destruct (reviewStorage st !! id); split; congruence.
  - intros r. destruct (userStorage st !! id); split; congruence.
  - intros e. destruct (serviceStorage st !! id); split;
      try (intros [? ?]); try congruence. intros [= <-]. done.
  - intros e. destruct (reviewStorage st !! id); split;
      try (intros [? ?]); try congruence. intros [= <-]. done.
  - intros e. destruct (userStorage st !! id); split;
      try (intros [? ?]); try congruence. intros [= <-]. done.
  - intros id'. unfold NotFound_service, NotFound_review, NotFound_user.
    repeat split; try discriminate;
      simpl; intros [= Heq]; exact (append_inj_l id id' " not found" Heq).
Qed.

(** ** Deleting in the second half *)

(** X7. The deletions of the second half ask for no caller: each of
    [deleteService], [deleteReview] and [deleteUser] fails with NotFound,
    leaving the stores as they were, exactly when nothing is stored under
    the id, and otherwise returns the stored record and removes it, so that
    the lookup of the id then fails; every other entry of every store
    stays. *)
Theorem unguarded_deletes (id : string) (st : Stores) :
  (serviceStorage st !! id = None
   → Unguarded.deleteService id st = (Err (NotFound_service id), st))
  ∧ (reviewStorage st !! id = None
     → Unguarded.deleteReview id st = (Err (NotFound_review id), st))
  ∧ (userStorage st !! id = None
     → Unguarded.deleteUser id st = (Err (NotFound_user id), st))
  ∧ (∀ old, serviceStorage st !! id = Some old →
            Unguarded.deleteService id st
            = (Ok old, withServices st (delete id (serviceStorage st)))
            ∧ Unguarded.getService id (Unguarded.deleteService id st).2
              = Err (NotFound_service id)
            ∧ sameServicesBut id st (Unguarded.deleteService id st).2)
  ∧ (∀ old, reviewStorage st !! id = Some old →
            Unguarded.deleteReview id st
            = (Ok old, withReviews st (delete id (reviewStorage st)))
            ∧ Unguarded.getReview id (Unguarded.deleteReview id st).2
              = Err (NotFound_review id)
            ∧ ∀ j, j ≠ id →
                   reviewStorage (Unguarded.deleteReview id st).2 !! j
                   = reviewStorage st !! j)
  ∧ (∀ old, userStorage st !! id = Some old →
            Unguarded.deleteUser id st
            = (Ok old, withUsers st (delete id (userStorage st)))
            ∧ Unguarded.getUser id (Unguarded.deleteUser id st).2
              = Err (NotFound_user id)
            ∧ ∀ j, j ≠ id →
                   userStorage (Unguarded.deleteUser id st).2 !! j
                   = userStorage st !! j).
Proof.
  unfold Unguarded.deleteService, Unguarded.deleteReview, Unguarded.deleteUser,
    Unguarded.getService, Unguarded.getReview, Unguarded.getUser.
  split; [by intros ->|]. split; [by intros ->|]. split; [by intros ->|].
  split; [|split]; intros old Hold; rewrite Hold; simpl;
    rewrite lookup_delete_eq; (split; [done|]); (split; [done|]).
  - split; [|done]. intros j Hj. simpl. by rewrite lookup_delete_ne.
  - intros j Hj. by rewrite lookup_delete_ne.
  - intros j Hj. by rewrite lookup_delete_ne.
Qed.

(** ** Reviews *)

(** X8. In the first half a review that passes validation is stored under
    the generated id with the payload's fields and the time of the call,
    whether or not a service is stored under its service id; [getReview] of
    that id then returns the object holding it, [getAllReviews] lists it,
    and the services, the users and the reviews under other ids stay as they
    were. *)
Theorem addReview_stored_and_read
    (payload : ReviewPayload.t) (caller : Principal) (env : Env) (st : Stores) :
  ¬ invalidReview payload →
  ∃ review st',
    addReview payload caller env st = (Ok review, st')
    ∧ ReviewRecord.id review = uuidv4 env
    ∧ ReviewRecord.serviceId review = ReviewPayload.serviceId payload
    ∧ ReviewRecord.userId review = ReviewPayload.userId payload
    ∧ ReviewRecord.rating review = ReviewPayload.rating payload
    ∧ ReviewRecord.comment review = ReviewPayload.comment payload
    ∧ ReviewRecord.createdAt review = time env
    ∧ getReview (ReviewRecord.id review) st' = Ok (Some review)
    ∧ (∃ l, getAllReviews st' = Ok l ∧ review ∈ l)
    ∧ serviceStorage st' = serviceStorage st
    ∧ userStorage st' = userStorage st
    ∧ ∀ j, j ≠ uuidv4 env → reviewStorage st' !! j = reviewStorage st !! j.
Proof.
  intros Hok.
  destruct (addReview_cases payload caller env st) as [[Hinv _]|[_ ->]]; [done|].
  eexists _, _. split; [reflexivity|]. simpl.
  repeat (split; [reflexivity|]).
  split; [unfold getReview; simpl; by rewrite lookup_insert_eq|].
  split.
  - eexists. split; [reflexivity|].
    apply elem_of_values. exists (uuidv4 env). simpl. by rewrite lookup_insert_eq.
  - repeat split. intros j Hj. by rewrite lookup_insert_ne.
Qed.

(** X9. In the second half deleting a service does not touch its reviews:
    after a successful [deleteService] the listing of all reviews, the
    reviews of that service and their average are what they were. *)
Theorem unguarded_deleteService_keeps_reviews
    (id : string) (st st' : Stores) (rec : ServiceRecord.t) :
  Unguarded.deleteService id st = (Ok rec, st') →
  serviceStorage st !! id = Some rec
  ∧ serviceStorage st' !! id = None
  ∧ getServiceReviews id st' = getServiceReviews id st
  ∧ getServiceAverageRating id st' = getServiceAverageRating id st
  ∧ getAllReviews st' = getAllReviews st.
Proof.
  unfold Unguarded.deleteService.
  destruct (serviceStorage st !! id) as [old|] eqn:Hold; [|discriminate].
  intros [= <- <-]. simpl. rewrite lookup_delete_eq. done.
Qed.

(** X10. [getServiceReviews] returns the stored reviews whose [serviceId] is
    the argument, one per stored entry, and [getServiceAverageRating] is
    computed over that very list: NoReviews when it is empty, and else the
    mean of its ratings in its order. *)
Theorem getServiceReviews_exact (serviceId : string) (st : Stores) :
  ∃ l, getServiceReviews serviceId st = Ok l
       ∧ (∀ r, r ∈ l ↔ (∃ k, reviewStorage st !! k = Some r)
                       ∧ ReviewRecord.serviceId r = serviceId)
       ∧ l ≡ₚ values (reviewsOf serviceId st)
       ∧ getServiceAverageRating serviceId st
         = match l with
           | [] => Err NoReviews
           | _ :: _ => Ok (arithmeticMean (ReviewRecord.rating <$> l))
           end.
Proof.
  eexists. split; [reflexivity|]. split; [|split].
  - intros r. rewrite elem_of_List_filter, elem_of_values.
    by rewrite String.eqb_eq.
  - apply reviewsOf_values.
  - apply getServiceAverageRating_unfold.
Qed.

(** ** Users *)

(** X11. [createUser] refuses a payload exactly when its username or its
    email is empty, whatever is stored: no other user's username or email
    matters.  An accepted user is stored under the generated id with the
    payload's fields, the time of the call as [createdAt] and no
    [updatedAt]; [getUser] of that id then returns the object holding it,
    and the services, the reviews and the users under other ids stay. *)
Theorem createUser_outcomes (payload : UserPayload.t) (env : Env) (st : Stores) :
  (createUser payload env st = (Err InvalidInput_user, st)
   ↔ UserPayload.username payload = "" ∨ UserPayload.email payload = "")
  ∧ (UserPayload.username payload ≠ "" ∧ UserPayload.email payload ≠ "" →
     ∃ user st',
       createUser payload env st = (Ok user, st')
       ∧ User.id user = uuidv4 env
       ∧ User.username user = UserPayload.username payload
       ∧ User.email user = UserPayload.email payload
       ∧ User.createdAt user = time env
       ∧ User.updatedAt user = None
       ∧ getUser (User.id user) st' = Ok (Some user)
       ∧ serviceStorage st' = serviceStorage st
       ∧ reviewStorage st' = reviewStorage st
       ∧ ∀ j, j ≠ uuidv4 env → userStorage st' !! j = userStorage st !! j).
Proof.
  unfold createUser.
  destruct (UserPayload.username payload) as [|a u] eqn:Hu;
    destruct (UserPayload.email payload) as [|b e] eqn:He; simpl.
  1-3: split; [split; [auto | done] | intros [? ?]; done].
  split.
  - split; [discriminate | intros [?|?]; discriminate].
  - intros _. eexists _, _. split; [reflexivity|]. simpl.
    rewrite Hu, He. repeat (split; [reflexivity|]).
    split; [unfold getUser; simpl; by rewrite lookup_insert_eq|].
    repeat split. intros j Hj. by rewrite lookup_insert_ne.
Qed.

(** X13. [updateUser] asks neither who calls nor whether the new texts are
    empty: it fails, with NotFound and the stores as they were, exactly
    when no user is stored under the id.  Otherwise it returns the stored
    user with the payload's username and email, [updatedAt] set to the time
    of the call, [id] and [createdAt] kept, and writes it under the user's
    own [id] field; for a user stored under its own id, the [getUser] of
    the second half then returns the updated user. *)
Theorem updateUser_outcomes
    (id : string) (payload : UserPayload.t) (env : Env) (st : Stores) :
  (userStorage st !! id = None
   → updateUser id payload env st = (Err (NotFound_user id), st))
  ∧ ∀ old, userStorage st !! id = Some old →
      ∃ user st',
        updateUser id payload env st = (Ok user, st')
        ∧ User.username user = UserPayload.username payload
        ∧ User.email user = UserPayload.email payload
        ∧ User.updatedAt user = Some (time env)
        ∧ User.id user = User.id old
        ∧ User.createdAt user = User.createdAt old
        ∧ userStorage st' !! User.id old = Some user
        ∧ (∀ j, j ≠ User.id old → userStorage st' !! j = userStorage st !! j)
        ∧ serviceStorage st' = serviceStorage st
        ∧ reviewStorage st' = reviewStorage st
        ∧ (User.id old = id → Unguarded.getUser id st' = Ok user).
Proof.
  unfold updateUser. split.
  - intros Hnone. by rewrite Hnone.
  - intros old Hold. rewrite Hold. eexists _, _. split; [reflexivity|]. simpl.
    rewrite lookup_insert_eq. repeat (split; [reflexivity|]).
    split; [intros j Hj; by rewrite lookup_insert_ne|].
    repeat split. intros <-. unfold Unguarded.getUser. simpl.
    by rewrite lookup_insert_eq.
Qed.

(** ** Searching users *)

Lemma startsWith_prefix (s t : string) :
  startsWith s t = true ↔ ∃ post, s = t +:+ post.
Proof.
  revert s. induction t as [|b t IH]; intros s; simpl.
  - destruct s; simpl; (split; [intros _; by eexists | done]).
  - destruct s as [|a s]; simpl.
    + split; [done | intros [post Hp]; discriminate].
    + rewrite andb_true_iff, Ascii.eqb_eq, IH. split.
      * intros [-> [post ->]]. by exists post.
      * intros [post [= -> ->]]. eauto.
Qed.

(** [includes] of the source finds exactly the runs of consecutive units. *)
Lemma includes_occursIn (s t : string) : includes s t = true ↔ occursIn t s.
Proof.
  unfold occursIn. induction s as [|a s IH].
  - cbn [includes]. rewrite orb_false_r, startsWith_prefix. split.
    + intros [post Hp]. by exists "", post.
    + intros (pre & post & Hp). destruct pre; [|discriminate]. by exists post.
  - cbn [includes]. rewrite orb_true_iff, startsWith_prefix, IH. split.
    + intros [[post Hp]|(pre & post & ->)].
      * by exists "", post.
      * by exists (String a pre), post.
    + intros (pre & post & Hp). destruct pre as [|b pre].
      * left. by exists post.
      * right. injection Hp as -> ->. by exists pre, post.
Qed.

Lemma List_filter_all {A} (f : A → bool) (l : list A) :
  (∀ x, f x = true) → List.filter f l = l.
Proof.
  intros Hall. induction l as [|a l IH]; [done|]. simpl. by rewrite Hall, IH.
Qed.

(** X14. [searchUsersByUsername] returns the stored users whose lower-cased
    username contains the lower-cased argument as a run of consecutive code
    units, and [searchUsersByEmail] does the same on the email; an empty
    argument returns every user, as [getAllUsers] does; a user named with
    the capital E with acute accent is found by the small one, and a user
    named "Bob" by "OB" but not by "bb". *)
Theorem user_search_substring (st : Stores) :
  (∀ username, ∃ l,
      searchUsersByUsername username st = Ok l
      ∧ ∀ u, u ∈ l ↔ (∃ k, userStorage st !! k = Some u)
                     ∧ occursIn (toLowerCase username) (toLowerCase (User.username u)))
  ∧ (∀ email, ∃ l,
      searchUsersByEmail email st = Ok l
      ∧ ∀ u, u ∈ l ↔ (∃ k, userStorage st !! k = Some u)
                     ∧ occursIn (toLowerCase email) (toLowerCase (User.email u)))
  ∧ searchUsersByUsername "" st = getAllUsers st
  ∧ searchUsersByEmail "" st = getAllUsers st
  ∧ (∀ k u, userStorage st !! k = Some u →
       (User.username u = capitalE →
        ∃ l, searchUsersByUsername smallE st = Ok l ∧ u ∈ l)
       ∧ (User.username u = "Bob" →
          ∃ l, searchUsersByUsername "OB" st = Ok l ∧ u ∈ l)
       ∧ (User.username u = "Bob" →
          ∃ l, searchUsersByUsername "bb" st = Ok l ∧ u ∉ l)).
Proof.
  split; [|split; [|split; [|split]]].
  - intros username. eexists. split; [reflexivity|]. intros u.
    by rewrite elem_of_List_filter, elem_of_values, includes_occursIn.
  - intros email. eexists. split; [reflexivity|]. intros u.
    by rewrite elem_of_List_filter, elem_of_values, includes_occursIn.
  - unfold searchUsersByUsername, getAllUsers. cbv zeta. f_equal.
    apply List_filter_all. intros u. simpl. by destruct (toLowerCase _).
  - unfold searchUsersByEmail, getAllUsers. cbv zeta. f_equal.
    apply List_filter_all. intros u. simpl. by destruct (toLowerCase _).
  - intros k u Hk. split; [|split]; intros Hname; eexists;
      (split; [reflexivity|]).
    1-2: apply elem_of_List_filter; split;
         [apply elem_of_values; eauto | by rewrite Hname].
    intros [_ Hf]%elem_of_List_filter. rewrite Hname in Hf. discriminate.
Qed.

(** ** Letter case *)

Lemma lowerUnit_idem (a : ascii) : lowerUnit (lowerUnit a) = lowerUnit a.
Proof.
  assert (forallb (fun a => Ascii.eqb (lowerUnit (lowerUnit a)) (lowerUnit a))
                  allUnits = true) as Hall by (vm_compute; reflexivity).
  rewrite forallb_forall in Hall.
  apply Ascii.eqb_eq, Hall, allUnits_complete.
Qed.

Lemma toLowerCase_idem (s : string) : toLowerCase (toLowerCase s) = toLowerCase s.
Proof. induction s as [|a s IH]; simpl; [done|]. by rewrite lowerUnit_idem, IH. Qed.

Lemma equalsIgnoreCase_lower (x y : string) :
  equalsIgnoreCase x y = true ↔ toLowerCase x = toLowerCase y.
Proof. by rewrite <- toLowerCase_eqb, String.eqb_eq. Qed.

(** X15. The searches depend on their argument only up to letter case: two
    arguments that are equal up to case give the same result in
    [searchServicesByCategory], [filterServicesByProvider],
    [searchUsersByUsername] and [searchUsersByEmail], on every store; so
    does an argument and its lower-cased form.  Equality up to case is an
    equivalence; it holds between "Food" and "fOOD" and between the capital
    and the small E with acute accent, and fails between "Food" and "Foot"
    and between "E" and the small E with acute accent. *)
Theorem searches_ignore_case (st : Stores) (x y : string) :
  (equalsIgnoreCase x y = true →
   searchServicesByCategory x st = searchServicesByCategory y st
   ∧ filterServicesByProvider x st = filterServicesByProvider y st
   ∧ searchUsersByUsername x st = searchUsersByUsername y st
   ∧ searchUsersByEmail x st = searchUsersByEmail y st)
  ∧ equalsIgnoreCase x (toLowerCase x) = true
  ∧ equalsIgnoreCase x x = true
  ∧ equalsIgnoreCase x y = equalsIgnoreCase y x
  ∧ (∀ z, equalsIgnoreCase x y = true → equalsIgnoreCase y z = true →
          equalsIgnoreCase x z = true)
  ∧ equalsIgnoreCase "Food" "fOOD" = true
  ∧ equalsIgnoreCase capitalE smallE = true
  ∧ equalsIgnoreCase "Food" "Foot" = false
  ∧ equalsIgnoreCase "E" smallE = false
  ∧ toLowerCase "Food" = "food"
  ∧ toLowerCase capitalE = smallE.
Proof.
  split; [|split; [|split; [|split; [|split]]]].
  - intros Heq%equalsIgnoreCase_lower.
    unfold searchServicesByCategory, filterServicesByProvider,
      searchUsersByUsername, searchUsersByEmail.
    by rewrite Heq.
  - apply equalsIgnoreCase_lower. by rewrite toLowerCase_idem.
  - by apply equalsIgnoreCase_lower.
  - rewrite <- !toLowerCase_eqb. apply String.eqb_sym.
  - intros z. rewrite !equalsIgnoreCase_lower. congruence.
  - repeat split; reflexivity.
Qed.

(** ** The order on strings and date ranges *)

Lemma lex_le_refl (x : string) : lex_le x x.
Proof. induction x; [apply lex_le_nil | by apply lex_le_eq]. Qed.

Lemma lex_le_antisym (x y : string) : lex_le x y → lex_le y x → x = y.
Proof.
  intros Hxy. induction Hxy as [y|a b x y Hlt|a x y Hxy IH]; intros Hyx.
  - by inversion Hyx.
  - inversion Hyx; subst; lia.
  - inversion Hyx; subst; [lia|]. f_equal. by apply IH.
Qed.

Lemma lex_le_trans (x y z : string) : lex_le x y → lex_le y z → lex_le x z.
Proof.
  intros Hxy. revert z.
  induction Hxy as [y|a b x y Hlt|a x y Hxy IH]; intros z Hyz.
  - apply lex_le_nil.
  - inversion Hyz; subst; apply lex_le_lt; lia.
  - inversion Hyz; subst; [by apply lex_le_lt|]. apply lex_le_eq. by apply IH.
Qed.

Lemma lex_le_total (x y : string) : lex_le x y ∨ lex_le y x.
Proof.
  revert y. induction x as [|a x IH]; intros [|b y].
  - left. constructor.
  - left. constructor.
  - right. constructor.
  - destruct (N.lt_trichotomy (N_of_ascii a) (N_of_ascii b)) as [Hlt|[Heq|Hgt]].
    + left. by apply lex_le_lt.
    + apply N_of_ascii_inj in Heq as ->.
      destruct (IH y); [left | right]; by apply lex_le_eq.
    + right. by apply lex_le_lt.
Qed.

Lemma string_lt_lex (x y : string) : string_lt x y = true ↔ lex_le x y ∧ x ≠ y.
Proof.
  split.
  - intros Hlt. destruct (lex_le_total x y) as [Hxy|Hyx].
    + split; [done|]. intros ->.
      pose proof (proj2 (string_le_lex y y) (lex_le_refl y)) as Hle.
      unfold string_le in Hle. rewrite Hlt in Hle. discriminate.
    + apply string_le_lex in Hyx. unfold string_le in Hyx.
      rewrite Hlt in Hyx. discriminate.
  - intros [Hxy Hne]. destruct (string_lt x y) eqn:Hlt; [done|]. exfalso.
    apply Hne, lex_le_antisym; [done|].
    apply string_le_lex. unfold string_le. by rewrite Hlt.
Qed.

(** X16. The comparisons of the source order the strings totally: [<=] is
    reflexive, antisymmetric, transitive and total, [>=] is its converse,
    [<] is [<=] without equality, and the empty string is below every
    string. *)
Theorem string_order (x y z : string) :
  string_le x x = true
  ∧ (string_le x y = true → string_le y x = true → x = y)
  ∧ (string_le x y = true → string_le y z = true → string_le x z = true)
  ∧ (string_le x y = true ∨ string_le y x = true)
  ∧ string_ge x y = string_le y x
  ∧ (string_lt x y = true ↔ string_le x y = true ∧ x ≠ y)
  ∧ string_le "" x = true.
Proof.
  rewrite !string_le_lex, string_lt_lex.
  split; [apply lex_le_refl|]. split; [apply lex_le_antisym|].
  split; [apply lex_le_trans|]. split; [apply lex_le_total|].
  split; [reflexivity|]. split; [done|]. constructor.
Qed.

(** X17. Edges of [filterServicesByDateRange]: a range whose end is below
    its start returns the empty list on every store; a range whose two
    bounds are the same string returns the services dated exactly so; and
    widening a range never loses a service. *)
Theorem date_range_edges (st : Stores) (startDate endDate : string) :
  (string_lt endDate startDate = true →
   filterServicesByDateRange startDate endDate st = Ok [])
  ∧ (∃ l, filterServicesByDateRange startDate startDate st = Ok l
          ∧ ∀ r, r ∈ l ↔ (∃ k, serviceStorage st !! k = Some r)
                         ∧ ServiceRecord.date r = startDate)
  ∧ (∀ startDate' endDate',
       string_le startDate' startDate = true →
       string_le endDate endDate' = true →
       ∃ l l', filterServicesByDateRange startDate endDate st = Ok l
               ∧ filterServicesByDateRange startDate' endDate' st = Ok l'
               ∧ ∀ r, r ∈ l → r ∈ l').
Proof.
  split; [|split].
  - intros Hinv. unfold filterServicesByDateRange. cbv zeta. f_equal.
    apply values_filter_nil. intros k r _.
    destruct (string_ge _ _ && string_le _ _) eqn:Hin; [|done]. exfalso.
    apply inRange_lex in Hin as [H1 H2].
    apply string_lt_lex in Hinv as [Hes Hne].
    apply Hne, lex_le_antisym; [done|]. by apply (lex_le_trans _ (ServiceRecord.date r)).
  - eexists. split; [reflexivity|]. intros r.
    rewrite elem_of_List_filter, elem_of_values, inRange_lex. split.
    + intros [Hk [H1 H2]]. split; [done|]. by apply lex_le_antisym.
    + intros [Hk <-]. split; [done|]. split; apply lex_le_refl.
  - intros startDate' endDate' Hs%string_le_lex He%string_le_lex.
    eexists _, _. split; [reflexivity|]. split; [reflexivity|]. intros r.
    rewrite !elem_of_List_filter, !inRange_lex. intros [Hk [H1 H2]].
    split; [done|]. split.
    + by apply (lex_le_trans _ startDate).
    + by apply (lex_le_trans _ endDate).
Qed.
(** ** Records stay under their own id *)

Lemma keyedBy_empty {A} (idOf : A → string) : keyedBy idOf (∅ : gmap string A).
Proof. intros k r Hk. by rewrite lookup_empty in Hk. Qed.

Lemma keyedBy_insert {A} (idOf : A → string) (m : gmap string A) i x :
  keyedBy idOf m → idOf x = i → keyedBy idOf (<[i:=x]> m).
Proof.
  intros Hm Hx k r. rewrite lookup_insert_Some.
  intros [[<- <-]|[_ Hk]]; [done | by apply Hm].
Qed.

Lemma keyedBy_delete {A} (idOf : A → string) (m : gmap string A) i :
  keyedBy idOf m → keyedBy idOf (delete i m).
Proof. intros Hm k r. rewrite lookup_delete_Some. intros [_ Hk]. by apply Hm. Qed.

Ltac call_cases :=
  repeat match goal with
         | |- context [match ?m !! ?k with _ => _ end] =>
             let H := fresh "Hlookup" in destruct (m !! k) eqn:H
         | |- context [if ?b then _ else _] =>
             let H := fresh "Hguard" in destruct b eqn:H
         end.

Lemma step_wellKeyed (c : Call) (env : Env) (st : Stores) :
  wellKeyed st → wellKeyed (step c env st).
Proof.
  intros (Hs & Hr & Hu). unfold wellKeyed.
  destruct c; cbn [step]; try (by repeat split);
    unfold addService, addReview, createUser;
    call_cases; cbn [snd serviceStorage reviewStorage userStorage
                     withServices withReviews withUsers];
    repeat split; try assumption;
    by apply keyedBy_insert.
Qed.

Lemma unguarded_step_wellKeyed (c : Unguarded.Call) (env : Env) (st : Stores) :
  wellKeyed st → wellKeyed (Unguarded.step c env st).
Proof.
  intros (Hs & Hr & Hu). unfold wellKeyed.
  destruct c; cbn [Unguarded.step];
    unfold Unguarded.addService, Unguarded.updateService, Unguarded.deleteService,
      Unguarded.updateServiceLocation, Unguarded.updateServiceDescription,
      Unguarded.addReview, Unguarded.deleteReview, Unguarded.createUser,
      Unguarded.deleteUser, updateUser;
    call_cases; cbn [snd serviceStorage reviewStorage userStorage
                     withServices withReviews withUsers];
    repeat split; try assumption;
    first [ by apply keyedBy_delete | by apply keyedBy_insert ].
Qed.

Lemma run_invariant (P : Stores → Prop) :
  (∀ c env st, P st → P (step c env st)) →
  ∀ calls st, P st → P (run calls st).
Proof.
  intros Hstep calls. induction calls as [|[c env] calls IH]; intros st Hst; [done|].
  simpl. by apply IH, Hstep.
Qed.

Lemma unguarded_run_invariant (P : Stores → Prop) :
  (∀ c env st, P st → P (Unguarded.step c env st)) →
  ∀ calls st, P st → P (Unguarded.run calls st).
Proof.
  intros Hstep calls. induction calls as [|[c env] calls IH]; intros st Hst; [done|].
  simpl. by apply IH, Hstep.
Qed.

Lemma emptyStores_wellKeyed : wellKeyed emptyStores.
Proof. repeat split; apply keyedBy_empty. Qed.

(** X18. In either half every update call keeps each stored record under
    its own [id]: if the services, the reviews and the users are all stored
    under their [id] field before a call, they are after it; so they are
    after any sequence of calls of one half on the empty canister. *)
Theorem wellKeyed_invariant :
  (∀ c env st, wellKeyed st → wellKeyed (step c env st))
  ∧ (∀ calls, wellKeyed (run calls emptyStores))
  ∧ (∀ c env st, wellKeyed st → wellKeyed (Unguarded.step c env st))
  ∧ (∀ calls, wellKeyed (Unguarded.run calls emptyStores)).
Proof.
  split; [apply step_wellKeyed|]. split.
  { intros calls. apply (run_invariant wellKeyed step_wellKeyed).
    apply emptyStores_wellKeyed. }
  split; [apply unguarded_step_wellKeyed|].
  intros calls. apply (unguarded_run_invariant wellKeyed unguarded_step_wellKeyed).
  apply emptyStores_wellKeyed.
Qed.

(** ** The first half only adds *)

Lemma step_other_keys (c : Call) (env : Env) (st : Stores) (k : string) :
  uuidv4 env ≠ k →
  serviceStorage (step c env st) !! k = serviceStorage st !! k
  ∧ reviewStorage (step c env st) !! k = reviewStorage st !! k
  ∧ userStorage (step c env st) !! k = userStorage st !! k.
Proof.
  intros Hk.
  destruct c; cbn [step]; try done;
    unfold addService, addReview, createUser;
    call_cases; cbn [snd serviceStorage reviewStorage userStorage
                     withServices withReviews withUsers];
    repeat split; try done; by rewrite lookup_insert_ne.
Qed.

Lemma step_keeps_keys (c : Call) (env : Env) (st : Stores) (k : string) :
  (is_Some (serviceStorage st !! k) → is_Some (serviceStorage (step c env st) !! k))
  ∧ (is_Some (reviewStorage st !! k) → is_Some (reviewStorage (step c env st) !! k))
  ∧ (is_Some (userStorage st !! k) → is_Some (userStorage (step c env st) !! k)).
Proof.
  destruct (decide (uuidv4 env = k)) as [<-|Hne].
  - destruct c; cbn [step]; try done;
      unfold addService, addReview, createUser;
      call_cases; cbn [snd serviceStorage reviewStorage userStorage
                       withServices withReviews withUsers];
      repeat split; try done; intros _; by rewrite lookup_insert_eq.
  - destruct (step_other_keys c env st k Hne) as (-> & -> & ->). done.
Qed.

(** X12. The first half only ever adds: a call leaves every entry of every
    store that is not under the id it generates exactly as it was; the
    calls that update or delete leave the stores as they were altogether;
    so along any sequence of calls a key that holds a service, a review or a
    user keeps holding one. *)
Theorem guarded_calls_only_add :
  (∀ c env st k,
     uuidv4 env ≠ k →
     serviceStorage (step c env st) !! k = serviceStorage st !! k
     ∧ reviewStorage (step c env st) !! k = reviewStorage st !! k
     ∧ userStorage (step c env st) !! k = userStorage st !! k)
  ∧ (∀ c env st,
       match c with
       | AddService _ _ | AddReview _ _ | CreateUser _ => True
       | _ => step c env st = st
       end)
  ∧ (∀ calls st k,
       (is_Some (serviceStorage st !! k)
        → is_Some (serviceStorage (run calls st) !! k))
       ∧ (is_Some (reviewStorage st !! k)
          → is_Some (reviewStorage (run calls st) !! k))
       ∧ (is_Some (userStorage st !! k)
          → is_Some (userStorage (run calls st) !! k))).
Proof.
  split; [apply step_other_keys|]. split; [by intros []|].
  intros calls st k. repeat split; intros Hk.
  - apply (run_invariant (λ s, is_Some (serviceStorage s !! k))); [|done].
    intros c env s. apply step_keeps_keys.
  - apply (run_invariant (λ s, is_Some (reviewStorage s !! k))); [|done].
    intros c env s. apply step_keeps_keys.
  - apply (run_invariant (λ s, is_Some (userStorage s !! k))); [|done].
    intros c env s. apply step_keeps_keys.
Qed.

(** ** Ratings in range *)

Lemma SFcompare_antisym (a b : spec_float) :
  SFcompare b a = option_map CompOpp (SFcompare a b).
Proof.
  destruct a as [sa|sa| |sa ma ea], b as [sb|sb| |sb mb eb]; simpl;
    try reflexivity;
    try (destruct sa; reflexivity); try (destruct sb; reflexivity);
    try (destruct sa, sb; reflexivity).
  pose proof (Pos.compare_cont_antisym ma mb Eq) as Hm. simpl in Hm.
  destruct sa, sb; simpl; try reflexivity;
    rewrite (Z.compare_antisym ea eb);
    destruct (ea ?= eb)%Z; simpl; try reflexivity;
    rewrite Hm; reflexivity.
Qed.

Lemma SFcompare_refl (a : spec_float) :
  SFcompare a a = match a with S754_nan => None | _ => Some Eq end.
Proof.
  destruct a as [s|s| |s m e]; simpl; try reflexivity.
  - destruct s; reflexivity.
  - destruct s; rewrite Z.compare_refl, Pos.compare_cont_refl; reflexivity.
Qed.

Lemma SFcompare_None (a b : spec_float) :
  SFcompare a b = None ↔ a = S754_nan ∨ b = S754_nan.
Proof.
  destruct a as [sa|sa| |sa ma ea], b as [sb|sb| |sb mb eb]; simpl;
    split; intros H; try discriminate; auto;
    try (destruct H; discriminate).
Qed.

Lemma is_nan_Prim2SF (x : float) : PrimFloat.is_nan x = true ↔ Prim2SF x = S754_nan.
Proof.
  unfold PrimFloat.is_nan. rewrite FloatAxioms.eqb_spec. unfold SFeqb. rewrite SFcompare_refl.
  destruct (Prim2SF x); simpl; split; congruence.
Qed.

(** On numbers, [!(x < y)] is [y <= x]. *)
Lemma ltb_false_leb (x y : float) :
  PrimFloat.is_nan x = false → PrimFloat.is_nan y = false →
  (PrimFloat.ltb x y = false ↔ PrimFloat.leb y x = true).
Proof.
  intros Hx Hy. rewrite FloatAxioms.ltb_spec, FloatAxioms.leb_spec. unfold SFltb, SFleb.
  rewrite (SFcompare_antisym (Prim2SF x)).
  destruct (SFcompare (Prim2SF x) (Prim2SF y)) as [[| |]|] eqn:Hc; simpl;
    split; try congruence.
  intros _. apply SFcompare_None in Hc as [Hc|Hc];
    apply is_nan_Prim2SF in Hc; congruence.
Qed.

Lemma leb_not_nan (x y : float) :
  PrimFloat.leb x y = true → PrimFloat.is_nan x = false ∧ PrimFloat.is_nan y = false.
Proof.
  rewrite FloatAxioms.leb_spec. unfold SFleb. intros Hle.
  split; apply not_true_is_false; intros Hn%is_nan_Prim2SF;
    rewrite Hn in Hle; simpl in Hle; [done|].
  by destruct (Prim2SF x).
Qed.

(** What validation lets through is a rating between 0 and 5. *)
Lemma rating_guard_range (r : float) :
  PrimFloat.is_nan r = false ∧ PrimFloat.ltb r 0 = false ∧ PrimFloat.ltb 5 r = false
  ↔ PrimFloat.leb 0 r = true ∧ PrimFloat.leb r 5 = true.
Proof.
  split.
  - intros (Hn & H0 & H5). split.
    + by apply (ltb_false_leb r 0).
    + by apply (ltb_false_leb 5 r).
  - intros [H0 H5]. destruct (leb_not_nan _ _ H0) as [_ Hn].
    split; [done|]. split.
    + by apply (ltb_false_leb r 0).
    + by apply (ltb_false_leb 5 r).
Qed.

Lemma valid_reviewInRange (i : string) (now : nat64) (p : ReviewPayload.t) :
  ¬ invalidReview p ↔ reviewInRange (newReview i now p).
Proof.
  unfold invalidReview, reviewInRange. simpl.
  pose proof (rating_guard_range (ReviewPayload.rating p)) as Hr.
  destruct (PrimFloat.is_nan (ReviewPayload.rating p)),
    (PrimFloat.ltb (ReviewPayload.rating p) 0),
    (PrimFloat.ltb 5 (ReviewPayload.rating p)); intuition congruence.
Qed.
(** X19. In the first half [addReview] succeeds exactly when the rating lies
    between 0 and 5 in the order of binary64 numbers (so it is a number) and
    the comment, the service id and the user id are non-empty; whether a
    service is stored under the service id plays no part. *)
Theorem addReview_accepts_range
    (payload : ReviewPayload.t) (caller : Principal) (env : Env) (st : Stores) :
  (∃ r, (addReview payload caller env st).1 = Ok r)
  ↔ PrimFloat.leb 0 (ReviewPayload.rating payload) = true
    ∧ PrimFloat.leb (ReviewPayload.rating payload) 5 = true
    ∧ ReviewPayload.comment payload ≠ ""
    ∧ ReviewPayload.serviceId payload ≠ ""
    ∧ ReviewPayload.userId payload ≠ "".
Proof.
  pose proof (valid_reviewInRange "" 0%N payload) as Hv.
  unfold reviewInRange in Hv. simpl in Hv.
  destruct (addReview_cases payload caller env st) as [[Hinv ->]|[Hok ->]]; simpl.
  - split; [intros [r Hr]; discriminate|].
    intros Hrange. exfalso. by apply Hv.
  - split; [|eauto]. intros _. by apply Hv.
Qed.

Lemma step_reviewsInRange (c : Call) (env : Env) (st : Stores) :
  reviewsInRange st → reviewsInRange (step c env st).
Proof.
  intros Hst. unfold reviewsInRange.
  destruct c; cbn [step]; try exact Hst;
    try (unfold addService, createUser; call_cases; exact Hst).
  destruct (addReview_cases payload caller env st) as [[_ ->]|[Hok ->]];
    [exact Hst|].
  simpl. intros k r. rewrite lookup_insert_Some.
  intros [[_ <-]|[_ Hk]]; [by apply valid_reviewInRange | by eapply Hst].
Qed.

(** X20. Every update call of the first half keeps the stored reviews
    validated: if each stored review has a rating between 0 and 5 and
    non-empty comment, service id and user id before a call, so it is
    after; hence after any sequence of calls on the empty canister every
    stored review, and every review that [getAllReviews] lists, is such. *)
Theorem reviewsInRange_invariant :
  (∀ c env st, reviewsInRange st → reviewsInRange (step c env st))
  ∧ (∀ calls, reviewsInRange (run calls emptyStores))
  ∧ (∀ calls l,
       getAllReviews (run calls emptyStores) = Ok l →
       ∀ r, r ∈ l → reviewInRange r).
Proof.
  assert (∀ calls, reviewsInRange (run calls emptyStores)) as Hrun.
  { intros calls. apply (run_invariant reviewsInRange step_reviewsInRange).
    intros k r Hk. simpl in Hk. by rewrite lookup_empty in Hk. }
  split; [apply step_reviewsInRange|]. split; [exact Hrun|].
  intros calls l [= <-] r [k Hk]%elem_of_values.
  by apply (Hrun calls k r).
Qed.

(** ** Listings without repetition *)

Lemma keyedBy_NoDup {A} (idOf : A → string) (m : gmap string A) :
  keyedBy idOf m → NoDup (values m).
Proof.
  intros Hm. unfold values.
  apply NoDup_fmap_2_strong; [|apply NoDup_map_to_list].
  intros [k1 r1] [k2 r2] H1%elem_of_map_to_list H2%elem_of_map_to_list Heq.
  simpl in Heq. subst r2. f_equal.
  by rewrite <- (Hm _ _ H1), <- (Hm _ _ H2).
Qed.

Lemma wellKeyed_listings (st : Stores) :
  wellKeyed st →
  (∀ l, getServices st = Ok l → NoDup l)
  ∧ (∀ l, getAllReviews st = Ok l → NoDup l)
  ∧ (∀ l, getAllUsers st = Ok l → NoDup l)
  ∧ (∀ category l, searchServicesByCategory category st = Ok l → NoDup l)
  ∧ (∀ provider l, filterServicesByProvider provider st = Ok l → NoDup l)
  ∧ (∀ startDate endDate l,
       filterServicesByDateRange startDate endDate st = Ok l → NoDup l)
  ∧ (∀ serviceId l, getServiceReviews serviceId st = Ok l → NoDup l)
  ∧ (∀ username l, searchUsersByUsername username st = Ok l → NoDup l)
  ∧ (∀ email l, searchUsersByEmail email st = Ok l → NoDup l).
Proof.
  intros (Hs%keyedBy_NoDup & Hr%keyedBy_NoDup & Hu%keyedBy_NoDup).
  repeat split; intros * Hq;
    unfold getServices, getAllReviews, getAllUsers, searchServicesByCategory,
      filterServicesByProvider, filterServicesByDateRange, getServiceReviews,
      searchUsersByUsername, searchUsersByEmail in Hq;
    cbv zeta in Hq; injection Hq as <-; try done;
    rewrite List_filter_decide; by apply NoDup_filter.
Qed.

(** X21. After any sequence of calls of one half on the empty canister no
    listing of that half repeats a record: [getServices], [getAllReviews],
    [getAllUsers] and the filters by category, provider and date range
    return lists without duplicates, and in the second half so do
    [getServiceReviews] and the two user searches. *)
Theorem listings_without_repetition :
  (∀ calls,
     (∀ l, getServices (run calls emptyStores) = Ok l → NoDup l)
     ∧ (∀ l, getAllReviews (run calls emptyStores) = Ok l → NoDup l)
     ∧ (∀ l, getAllUsers (run calls emptyStores) = Ok l → NoDup l)
     ∧ (∀ category l,
          searchServicesByCategory category (run calls emptyStores) = Ok l → NoDup l)
     ∧ (∀ provider l,
          filterServicesByProvider provider (run calls emptyStores) = Ok l → NoDup l)
     ∧ (∀ startDate endDate l,
          filterServicesByDateRange startDate endDate (run calls emptyStores) = Ok l
          → NoDup l))
  ∧ (∀ calls,
       (∀ l, getServices (Unguarded.run calls emptyStores) = Ok l → NoDup l)
       ∧ (∀ l, getAllReviews (Unguarded.run calls emptyStores) = Ok l → NoDup l)
       ∧ (∀ l, getAllUsers (Unguarded.run calls emptyStores) = Ok l → NoDup l)
       ∧ (∀ category l,
            searchServicesByCategory category (Unguarded.run calls emptyStores) = Ok l
            → NoDup l)
       ∧ (∀ provider l,
            filterServicesByProvider provider (Unguarded.run calls emptyStores) = Ok l
            → NoDup l)
       ∧ (∀ startDate endDate l,
            filterServicesByDateRange startDate endDate
              (Unguarded.run calls emptyStores) = Ok l
            → NoDup l)
       ∧ (∀ serviceId l,
            getServiceReviews serviceId (Unguarded.run calls emptyStores) = Ok l
            → NoDup l)
       ∧ (∀ username l,
            searchUsersByUsername username (Unguarded.run calls emptyStores) = Ok l
            → NoDup l)
       ∧ (∀ email l,
            searchUsersByEmail email (Unguarded.run calls emptyStores) = Ok l
            → NoDup l)).
Proof.
  split; intros calls.
  - destruct (wellKeyed_listings (run calls emptyStores))
      as (H1 & H2 & H3 & H4 & H5 & H6 & _).
    { apply (run_invariant wellKeyed step_wellKeyed), emptyStores_wellKeyed. }
    done.
  - apply wellKeyed_listings.
    apply (unguarded_run_invariant wellKeyed unguarded_step_wellKeyed),
      emptyStores_wellKeyed.
Qed.

(** ** The two revisions side by side *)

(** X22. The calls that create a record differ between the two halves only
    by what the first half refuses: [addService], [addReview] and
    [createUser] of the first half either answer with their InvalidInput
    message and leave the stores as they were, or return the record and the
    stores that the call of the second half returns for the same payload;
    the latter on every valid payload. *)
Theorem guarded_creation_is_unguarded (env : Env) (st : Stores) :
  (∀ payload caller,
     addService payload caller env st = (Err InvalidInput_service, st)
     ∨ addService payload caller env st = Unguarded.addService payload env st)
  ∧ (∀ payload caller,
       addReview payload caller env st = (Err InvalidInput_review, st)
       ∨ addReview payload caller env st = Unguarded.addReview payload env st)
  ∧ (∀ payload,
       createUser payload env st = (Err InvalidInput_user, st)
       ∨ createUser payload env st = Unguarded.createUser payload env st)
  ∧ (∀ payload caller,
       validServicePayload payload →
       addService payload caller env st = Unguarded.addService payload env st)
  ∧ (∀ payload caller,
       ¬ invalidReview payload →
       addReview payload caller env st = Unguarded.addReview payload env st)
  ∧ (∀ payload,
       UserPayload.username payload ≠ "" → UserPayload.email payload ≠ "" →
       createUser payload env st = Unguarded.createUser payload env st).
Proof.
  split; [|split; [|split; [|split; [|split]]]].
  - intros payload caller. unfold addService, Unguarded.addService.
    destruct (_ || _); [by left | by right].
  - intros payload caller.
    destruct (addReview_cases payload caller env st) as [[_ ->]|[_ ->]];
      [by left | by right].
  - intros payload. unfold createUser, Unguarded.createUser.
    destruct (_ || _); [by left | by right].
  - intros payload caller Hv. by rewrite (addService_valid _ _ _ _ Hv).
  - intros payload caller Hok.
    by destruct (addReview_cases payload caller env st) as [[Hinv _]|[_ ->]].
  - intros payload Hu He. unfold createUser, Unguarded.createUser.
    apply truthy_nonempty in Hu, He. by rewrite Hu, He.
Qed.

(** ** Updates one after the other *)

(** X23. In the second half the updates of location and of description of a
    service stored under its own id commute: made one after the other in
    either order, at the same two times, they leave the same stores, in
    which the service has the new location, the new description, the time
    of the second call as [updatedAt] and every other field as before. *)
Theorem unguarded_location_description_commute
    (id X D : string) (env1 env2 : Env) (st : Stores) (old : ServiceRecord.t) :
  serviceStorage st !! id = Some old →
  ServiceRecord.id old = id →
  ∃ r,
    (Unguarded.updateServiceDescription id D env2
       (Unguarded.updateServiceLocation id X env1 st).2)
    = (Ok r, withServices st (<[id := r]> (serviceStorage st)))
    ∧ (Unguarded.updateServiceLocation id X env2
         (Unguarded.updateServiceDescription id D env1 st).2)
      = (Ok r, withServices st (<[id := r]> (serviceStorage st)))
    ∧ r = setDescription (setLocation old X (time env1)) D (time env2)
    ∧ ServiceRecord.location r = X
    ∧ ServiceRecord.description r = D
    ∧ ServiceRecord.updatedAt r = Some (time env2)
    ∧ ServiceRecord.id r = ServiceRecord.id old
    ∧ ServiceRecord.provider r = ServiceRecord.provider old
    ∧ ServiceRecord.createdAt r = ServiceRecord.createdAt old.
Proof.
  intros Hold Hid.
  exists (setDescription (setLocation old X (time env1)) D (time env2)).
  unfold Unguarded.updateServiceLocation, Unguarded.updateServiceDescription.
  rewrite Hold. cbn [snd withServices serviceStorage]. rewrite Hid.
  rewrite !lookup_insert_eq. cbn [setLocation setDescription ServiceRecord.id].
  rewrite Hid. unfold withServices. cbn [serviceStorage reviewStorage userStorage].
  rewrite !insert_insert_eq. done.
Qed.

(** ** What a call leaves alone *)

(** X24. In the second half no call rewrites history.  On stores where the
    services and the users are under their own ids, across any update call
    whose generated id is not the key in question, a service or a user that
    is stored before and after keeps its [id] and [createdAt], and a review
    that is stored before and after is the same review, field for field. *)
Theorem unguarded_history_kept
    (c : Unguarded.Call) (env : Env) (st : Stores) (k : string) :
  uuidv4 env ≠ k →
  keyedBy ServiceRecord.id (serviceStorage st) →
  keyedBy User.id (userStorage st) →
  (∀ s s', serviceStorage st !! k = Some s →
           serviceStorage (Unguarded.step c env st) !! k = Some s' →
           ServiceRecord.id s' = ServiceRecord.id s
           ∧ ServiceRecord.createdAt s' = ServiceRecord.createdAt s)
  ∧ (∀ r r', reviewStorage st !! k = Some r →
             reviewStorage (Unguarded.step c env st) !! k = Some r' → r' = r)
  ∧ (∀ u u', userStorage st !! k = Some u →
             userStorage (Unguarded.step c env st) !! k = Some u' →
             User.id u' = User.id u ∧ User.createdAt u' = User.createdAt u).
Proof.
  intros Hfresh Hks Hku.
  destruct c; cbn [Unguarded.step];
    unfold Unguarded.addService, Unguarded.updateService, Unguarded.deleteService,
      Unguarded.updateServiceLocation, Unguarded.updateServiceDescription,
      Unguarded.addReview, Unguarded.deleteReview, Unguarded.createUser,
      Unguarded.deleteUser, updateUser;
    call_cases; cbn [snd serviceStorage reviewStorage userStorage
                     withServices withReviews withUsers];
    (split; [|split]); intros ? ? H1 H2;
    try (rewrite H1 in H2; by simplify_eq);
    try (apply lookup_delete_Some in H2 as [_ H2]; rewrite H1 in H2; by simplify_eq);
    try (apply lookup_insert_Some in H2 as [[Hk <-]|[_ H2]];
         [ | rewrite H1 in H2; by simplify_eq ]);
    try done;
    try (pose proof (Hks _ _ Hlookup) as Hid; rewrite Hid in Hk; subst k;
         rewrite Hlookup in H1; by simplify_eq);
    try (pose proof (Hku _ _ Hlookup) as Hid; rewrite Hid in Hk; subst k;
         rewrite Hlookup in H1; by simplify_eq).
Qed.

(** ** The further properties at the sample data *)

Lemma sample_services_keyed : keyedBy ServiceRecord.id (serviceStorage sampleStores).
Proof.
  apply (bool_decide_unpack
           (map_Forall (λ k r, ServiceRecord.id r = k) (serviceStorage sampleStores))).
  vm_compute. exact I.
Defined.

(** Adding the sample payload when the generated id is "s9". *)
Lemma addService_store_effect_witness :
  ∃ r st',
    addService samplePayload alice laterEnv sampleStores = (Ok r, st')
    ∧ ServiceRecord.id r = "s9"
    ∧ ServiceRecord.createdAt r = 250%N
    ∧ serviceStorage st' !! "s9" = Some r.
Proof.
  destruct (addService_store_effect samplePayload alice laterEnv sampleStores)
    as (r & st' & Hcall & Hid & Hcreated & _ & Hstored & _).
  - repeat split; discriminate.
  - exists r, st'. repeat split; assumption.
Defined.

(** A review with rating 5 for "zz" is stored under "s9" and read back. *)
Lemma addReview_stored_and_read_witness :
  ∃ review st',
    addReview (newReviewPayloadFor "zz") bob laterEnv sampleStores = (Ok review, st')
    ∧ ReviewRecord.id review = "s9"
    ∧ getReview "s9" st' = Ok (Some review).
Proof.
  destruct (addReview_stored_and_read (newReviewPayloadFor "zz") bob laterEnv sampleStores)
    as (review & st' & Hcall & Hid & _ & _ & _ & _ & _ & Hget & _).
  - intros [H|[H|[H|[H|[H|H]]]]]; discriminate.
  - exists review, st'. rewrite Hid in Hget. repeat split; assumption.
Defined.

(** In the second half deleting "s1" leaves its three reviews and their
    average of 4. *)
Lemma unguarded_deleteService_keeps_reviews_witness :
  getServiceAverageRating "s1" (Unguarded.deleteService "s1" sampleStores).2
  = getServiceAverageRating "s1" sampleStores.
Proof.
  apply (unguarded_deleteService_keeps_reviews
           "s1" sampleStores (Unguarded.deleteService "s1" sampleStores).2
           sampleService).
  reflexivity.
Defined.

(** Moving "s1" and rewording it, in either order. *)
Lemma unguarded_location_description_commute_witness :
  ∃ r,
    Unguarded.updateServiceDescription "s1" "Packed lunch" laterEnv
      (Unguarded.updateServiceLocation "s1" "Hall C" sampleEnv sampleStores).2
    = Unguarded.updateServiceLocation "s1" "Hall C" laterEnv
        (Unguarded.updateServiceDescription "s1" "Packed lunch" sampleEnv sampleStores).2
    ∧ (Unguarded.updateServiceDescription "s1" "Packed lunch" laterEnv
         (Unguarded.updateServiceLocation "s1" "Hall C" sampleEnv sampleStores).2).1
      = Ok r
    ∧ ServiceRecord.location r = "Hall C"
    ∧ ServiceRecord.description r = "Packed lunch"
    ∧ ServiceRecord.updatedAt r = Some 250%N.
Proof.
  destruct (unguarded_location_description_commute
              "s1" "Hall C" "Packed lunch" sampleEnv laterEnv sampleStores
              sampleService sample_s1 eq_refl)
    as (r & H1 & H2 & _ & Hl & Hd & Hu & _).
  exists r. rewrite H1, H2. repeat split; assumption.
Defined.

(** In the second half handing "s1" over to bob changes neither its id nor
    its creation time. *)
Lemma unguarded_history_kept_witness :
  ServiceRecord.id (mergeService sampleService transferPayload 250%N)
  = ServiceRecord.id sampleService
  ∧ ServiceRecord.createdAt (mergeService sampleService transferPayload 250%N)
    = ServiceRecord.createdAt sampleService.
Proof.
  assert (uuidv4 laterEnv ≠ "s1") as Hfresh by discriminate.
  destruct (unguarded_history_kept
              (Unguarded.UpdateService "s1" transferPayload) laterEnv sampleStores "s1"
              Hfresh sample_services_keyed (keyedBy_empty User.id)) as [Hservice _].
  exact (Hservice sampleService (mergeService sampleService transferPayload 250%N)
                  sample_s1 eq_refl).
Defined.
